(** * purechance: seeded coin flips, draws, integer streams and shuffles

    A shallow embedding of [src/purechance/core.py].  The five functions of
    the module ([coinflip], [draw], [get_rng], [integers], [shuffle]) are
    written in a small state-and-exception monad over a store of Python
    objects: generator instances ([random.Random]), lists and the lazy
    iterators that [integers] returns.  Objects are reached through
    references, so sharing a generator between calls and the freshness of a
    returned list are visible in the statements.

    [random.Random] belongs to the Python standard library, not to this
    package.  Its methods are taken as an interface ([RandomOps]) with the
    behaviour the library documents ([RandomLaws]); a small deterministic
    reference generator at the end of the definitions implements the
    interface and shows that the laws can be met. *)

From Stdlib Require Import ZArith QArith Lia.
From stdpp Require Import base option list strings.

Local Open Scope Z_scope.

(** ** Python floats, as far as comparison goes

    [coinflip] only compares floats.  An IEEE comparison of two finite
    doubles is the comparison of the rationals they denote, every comparison
    with a NaN is false, and the infinities sit at the two ends.  No float
    arithmetic is modelled. *)

Inductive pyfloat :=
  | Finite (q : Q)
  | PosInf
  | NegInf
  | NaN.

Definition float_le (x y : pyfloat) : bool :=
  match x, y with
  | NaN, _ | _, NaN => false
  | NegInf, _ => true
  | _, PosInf => true
  | Finite a, Finite b => Qle_bool a b
  | _, _ => false
  end.

Definition float_lt (x y : pyfloat) : bool :=
  match x, y with
  | NaN, _ | _, NaN => false
  | _, _ => negb (float_le y x)
  end.

(** The closed interval [0, 1] of the spec, stated on the denoted number. *)
Definition in_unit_interval (x : pyfloat) : Prop :=
  match x with
  | Finite q => (0 <= q)%Q /\ (q <= 1)%Q
  | _ => False
  end.

(** ** Values, references and exceptions *)

(** References are positions in the store of their kind of object. *)
Abbreviation rng_ref := nat (only parsing).
Abbreviation list_ref := nat (only parsing).
Abbreviation iter_ref := nat (only parsing).

(** What a caller may pass as [seed].  [bool] is a subclass of [int] in
    Python, so [isinstance(True, int)] holds. *)
Inductive pyvalue :=
  | PyNone
  | PyInt (n : Z)
  | PyBool (b : bool)
  | PyFloat (x : pyfloat)
  | PyStr (s : string)
  | PyRandom (r : rng_ref)
  | PyList (l : list_ref).

(** The [ValueError]s of the module, told apart by the place that raises
    them: three [raise] statements of core.py and two inside the standard
    library ([Random.sample], [Random.randrange]). *)
Inductive message :=
  | BiasOutOfRange      (* core.py:14 *)
  | NegativeSize        (* core.py:23 *)
  | BadSeed             (* core.py:36 *)
  | SampleTooLarge      (* random.sample: larger than population *)
  | EmptyRandrange.     (* random.randrange: empty range *)

Inductive exn :=
  | ValueError (m : message)
  | IndexError
  | StopIteration
  | OverflowError.   (* random.choices: k does not fit a C ssize_t *)

(** The error kinds the specification names. *)
Inductive error_kind := InvalidSeed | InvalidBias | InvalidSize | EmptyRange.

Definition kind_of (e : exn) : option error_kind :=
  match e with
  | ValueError BiasOutOfRange => Some InvalidBias
  | ValueError NegativeSize => Some InvalidSize
  | ValueError SampleTooLarge => Some InvalidSize
  | ValueError BadSeed => Some InvalidSeed
  | ValueError EmptyRandrange => Some EmptyRange
  | IndexError | StopIteration | OverflowError => None
  end.

(** ** The interface of [random.Random]

    [sample] and [choices] select by position and never look at the
    elements, so both are modelled as producing positions into a population
    of a given length. *)

(** [sys.maxsize] of a 64-bit build of CPython: the largest repetition
    count [itertools.repeat] accepts, which [choices] uses to count its
    draws. *)
Definition ssize_max : Z := 2 ^ 63 - 1.

Class RandomOps (G : Type) := {
  (** [random.Random(n)] for an integer [n]. *)
  rnd_init : Z -> G;
  (** [random.Random(None)]: seeded from entropy supplied by the system. *)
  rnd_init_os : Z -> G;
  (** [rng.random()]. *)
  rnd_random : G -> Q * G;
  (** [rng.randrange(lower, upper)]; [None] is the [ValueError]. *)
  rnd_randrange : Z -> Z -> G -> option Z * G;
  (** [rng.choices(population, k=k)] on a population of [n] elements;
      [None] is the [OverflowError]. *)
  rnd_choices : nat -> Z -> G -> option (list nat) * G;
  (** [rng.sample(population, k=k)] on a population of [n] elements;
      [None] is the [ValueError]. *)
  rnd_sample : nat -> Z -> G -> option (list nat) * G;
}.

(** What the library documents of these methods.  In CPython's
    [Lib/random.py] the range check of [randrange], the size check of
    [sample] and the counter of [choices] stand before the first use of the
    underlying bit source, so a call that raises leaves the generator where
    it was. *)
Class RandomLaws (G : Type) `{RandomOps G} : Prop := {
  (** [random()] returns a float in the half-open interval [0.0, 1.0). *)
  random_unit : forall g, (0 <= (rnd_random g).1)%Q /\ ((rnd_random g).1 < 1)%Q;
  (** [randrange(a, b)] returns an integer [v] with [a <= v < b]. *)
  randrange_ok : forall lower upper g, lower < upper ->
    exists v, (rnd_randrange lower upper g).1 = Some v /\ lower <= v < upper;
  (** [randrange(a, b)] with [b <= a] raises [ValueError] (empty range). *)
  randrange_empty : forall lower upper g, upper <= lower ->
    rnd_randrange lower upper g = (None, g);
  (** [choices(population, k=k)] returns [k] elements of a non-empty
      population, chosen with replacement, for a count [k] that fits a C
      [ssize_t] (none for a negative [k]). *)
  choices_ok : forall n k g, (0 < n)%nat -> k <= ssize_max ->
    exists js, (rnd_choices n k g).1 = Some js /\
      length js = Z.to_nat k /\ Forall (fun j => (j < n)%nat) js;
  (** [choices(population, k=k)] raises [OverflowError] for a larger [k],
      when it sets up its counter and before it draws. *)
  choices_overflow : forall n k g, ssize_max < k ->
    rnd_choices n k g = (None, g);
  (** [sample(population, k)] returns [k] elements at positions chosen
      without replacement. *)
  sample_ok : forall n k g, 0 <= k <= Z.of_nat n ->
    exists js, (rnd_sample n k g).1 = Some js /\
      length js = Z.to_nat k /\ NoDup js /\ Forall (fun j => (j < n)%nat) js;
  (** [sample(population, k)] raises [ValueError] when the sample is larger
      than the population or negative. *)
  sample_too_large : forall n k g, ~ (0 <= k <= Z.of_nat n) ->
    rnd_sample n k g = (None, g);
}.

(** ** The store and the monad *)

(** The state of the generator expression that [integers] returns: the
    captured generator and bounds, and how many items the [range] iterator
    still holds; [Finished] once it has returned or raised. *)
Inductive genexpr :=
  | Suspended (rng : rng_ref) (lower upper : Z) (remaining : nat)
  | Finished.

Inductive outcome (A : Type) :=
  | Return (a : A)
  | Raise (e : exn)
  | Wrong.   (* a reference to no object: no Python program gets here *)
Arguments Return {A} a.
Arguments Raise {A} e.
Arguments Wrong {A}.

Section Core.
Context {G : Type} `{RandomOps G} {T : Type}.

Record world := World {
  rngs : list G;            (* the random.Random instances *)
  lists : list (list T);    (* the list objects *)
  iters : list genexpr;     (* the generator-expression objects *)
  entropy : nat -> Z;       (* what the system will supply as entropy *)
  reads : nat;              (* how much of it has been read *)
}.

Definition M (A : Type) : Type := world -> outcome A * world.

Definition ret {A} (a : A) : M A := fun w => (Return a, w).
Definition raise {A} (e : exn) : M A := fun w => (Raise e, w).
Definition wrong {A} : M A := fun w => (Wrong, w).
Definition bind {A B} (m : M A) (k : A -> M B) : M B :=
  fun w =>
    match m w with
    | (Return a, w1) => k a w1
    | (Raise e, w1) => (Raise e, w1)
    | (Wrong, w1) => (Wrong, w1)
    end.

Notation "x <- m ;; k" := (bind m (fun x => k))
  (at level 100, m at next level, right associativity).

Definition set_rngs (gs : list G) (w : world) : world :=
  World gs (lists w) (iters w) (entropy w) (reads w).
Definition set_lists (ls : list (list T)) (w : world) : world :=
  World (rngs w) ls (iters w) (entropy w) (reads w).
Definition set_iters (its : list genexpr) (w : world) : world :=
  World (rngs w) (lists w) its (entropy w) (reads w).

(** [random.Random(seed)] for [seed] an integer or [None]: a new object. *)
Definition new_Random (seed : option Z) : M rng_ref :=
  fun w =>
    match seed with
    | Some n =>
        (Return (length (rngs w)), set_rngs (rngs w ++ [rnd_init n]) w)
    | None =>
        (Return (length (rngs w)),
         World (rngs w ++ [rnd_init_os (entropy w (reads w))])
               (lists w) (iters w) (entropy w) (S (reads w)))
    end.

(** A method call on the generator at [r]: the object is updated in place. *)
Definition on_rng {A} (r : rng_ref) (f : G -> A * G) : M A :=
  fun w =>
    match rngs w !! r with
    | Some g => let (a, g') := f g in (Return a, set_rngs (<[r := g']> (rngs w)) w)
    | None => (Wrong, w)
    end.

Definition call_random (r : rng_ref) : M Q := on_rng r rnd_random.

Definition call_randrange (r : rng_ref) (lower upper : Z) : M Z :=
  o <- on_rng r (rnd_randrange lower upper) ;;
  match o with
  | Some v => ret v
  | None => raise (ValueError EmptyRandrange)
  end.

(** [len(items)] and the list literal / list constructor. *)
Definition len (l : list_ref) : M nat :=
  fun w =>
    match lists w !! l with
    | Some xs => (Return (length xs), w)
    | None => (Wrong, w)
    end.

Definition read_list (l : list_ref) : M (list T) :=
  fun w =>
    match lists w !! l with
    | Some xs => (Return xs, w)
    | None => (Wrong, w)
    end.

Definition new_list (xs : list T) : M list_ref :=
  fun w => (Return (length (lists w)), set_lists (lists w ++ [xs]) w).

(** [[population[j] for j in js]]; a position out of range is an
    [IndexError]. *)
Definition select (xs : list T) (js : list nat) : M (list T) :=
  match mapM (fun j => xs !! j) js with
  | Some ys => ret ys
  | None => raise IndexError
  end.

Definition call_choices (r : rng_ref) (items : list_ref) (k : Z) : M list_ref :=
  xs <- read_list items ;;
  o <- on_rng r (rnd_choices (length xs) k) ;;
  match o with
  | Some js => ys <- select xs js ;; new_list ys
  | None => raise OverflowError
  end.

Definition call_sample (r : rng_ref) (items : list_ref) (k : Z) : M list_ref :=
  xs <- read_list items ;;
  o <- on_rng r (rnd_sample (length xs) k) ;;
  match o with
  | Some js => ys <- select xs js ;; new_list ys
  | None => raise (ValueError SampleTooLarge)
  end.

(** ** core.py *)

(** [get_rng], lines 29-36. *)
Definition get_rng (seed : pyvalue) : M rng_ref :=
  match seed with
  | PyRandom r => ret r                            (* isinstance(seed, random.Random) *)
  | PyNone => new_Random None                      (* seed is None *)
  | PyInt n => new_Random (Some n)                 (* isinstance(seed, int) *)
  | PyBool b => new_Random (Some (Z.b2z b))
  | PyFloat _ | PyStr _ | PyList _ => raise (ValueError BadSeed)
  end.

(** [coinflip], lines 11-16. *)
Definition coinflip (bias : pyfloat) (seed : pyvalue) : M bool :=
  if negb (float_le (Finite 0) bias && float_le bias (Finite 1))
  then raise (ValueError BiasOutOfRange)
  else
    rng <- get_rng seed ;;
    x <- call_random rng ;;
    ret (float_lt (Finite x) bias).

(** [draw], lines 19-26. *)
Definition draw (items : list_ref) (replace : bool) (size : Z) (seed : pyvalue)
  : M list_ref :=
  rng <- get_rng seed ;;
  if size <? 0 then raise (ValueError NegativeSize)
  else
    n <- len items ;;
    if (n =? 0)%nat || (size =? 0) then new_list []
    else if replace then call_choices rng items size
    else call_sample rng items size.

(** [integers], lines 39-42.  The generator expression evaluates
    [range(size)] when it is created and everything else when it is
    advanced. *)
Definition new_genexpr (rng : rng_ref) (lower upper : Z) (count : nat) : M iter_ref :=
  fun w =>
    (Return (length (iters w)),
     set_iters (iters w ++ [Suspended rng lower upper count]) w).

Definition integers (size lower upper : Z) (seed : pyvalue) : M iter_ref :=
  rng <- get_rng seed ;;
  new_genexpr rng lower upper (Z.to_nat size).

(** [shuffle], lines 45-47. *)
Definition shuffle (items : list_ref) (seed : pyvalue) : M list_ref :=
  n <- len items ;;
  draw items false (Z.of_nat n) seed.

(** ** Consuming the iterator *)

(** [next(it)]. *)
Definition next (it : iter_ref) : M Z :=
  fun w =>
    match iters w !! it with
    | None => (Wrong, w)
    | Some Finished => (Raise StopIteration, w)
    | Some (Suspended rng lower upper 0%nat) =>
        (Raise StopIteration, set_iters (<[it := Finished]> (iters w)) w)
    | Some (Suspended rng lower upper (S k)) =>
        match call_randrange rng lower upper w with
        | (Return v, w1) =>
            (Return v, set_iters (<[it := Suspended rng lower upper k]> (iters w1)) w1)
        | (Raise e, w1) => (Raise e, set_iters (<[it := Finished]> (iters w1)) w1)
        | (Wrong, w1) => (Wrong, w1)
        end
    end.

(** [tuple(it)]: [next] until [StopIteration]; any other exception
    propagates.  [budget] bounds the number of calls to [next]. *)
Fixpoint collect (budget : nat) (it : iter_ref) : M (list Z) :=
  match budget with
  | O => wrong
  | S b =>
      fun w =>
        match next it w with
        | (Return v, w1) =>
            match collect b it w1 with
            | (Return vs, w2) => (Return (v :: vs), w2)
            | other => other
            end
        | (Raise StopIteration, w1) => (Return [], w1)
        | (Raise e, w1) => (Raise e, w1)
        | (Wrong, w1) => (Wrong, w1)
        end
  end.

Definition remaining_items (it : iter_ref) (w : world) : nat :=
  match iters w !! it with
  | Some (Suspended _ _ _ k) => k
  | _ => 0%nat
  end.

(** The iterator holds [remaining_items] values, so one more call to
    [next] than that always reaches the end. *)
Definition tuple (it : iter_ref) : M (list Z) :=
  fun w => collect (S (remaining_items it w)) it w.

(** ** What the claims speak about *)

(** A seed the type [Seed] admits, whose generator (if it is one) exists. *)
Definition valid_seed (w : world) (seed : pyvalue) : Prop :=
  match seed with
  | PyNone | PyInt _ | PyBool _ => True
  | PyRandom r => is_Some (rngs w !! r)
  | PyFloat _ | PyStr _ | PyList _ => False
  end.

(** A seed that is neither absent, nor an integer, nor a generator. *)
Definition foreign_seed (seed : pyvalue) : Prop :=
  match seed with
  | PyFloat _ | PyStr _ | PyList _ => True
  | _ => False
  end.

(** [ys] is what stands in [xs] at the positions [js], in that order. *)
Definition drawn_at (xs : list T) (js : list nat) (ys : list T) : Prop :=
  Forall2 (fun j y => xs !! j = Some y) js ys.

(** The generators that existed in [w] are in [w'] with the same state. *)
Definition rngs_untouched (w w' : world) : Prop :=
  forall r g, rngs w !! r = Some g -> rngs w' !! r = Some g.

(** The list objects of [w] are in [w'] with the same contents. *)
Definition lists_untouched (w w' : world) : Prop :=
  forall l xs, lists w !! l = Some xs -> lists w' !! l = Some xs.

(** ** Draw sequences

    What a caller can ask of a generator, and the answers it gets when it
    asks a list of such questions in order. *)

Inductive request :=
  | AskRandom
  | AskRandrange (lower upper : Z)
  | AskChoices (n : nat) (k : Z)
  | AskSample (n : nat) (k : Z).

Inductive reply :=
  | GotFloat (x : Q)
  | GotInt (v : option Z)
  | GotChoices (js : option (list nat))
  | GotSample (js : option (list nat)).

Definition answer (q : request) (g : G) : reply * G :=
  match q with
  | AskRandom => let (x, g') := rnd_random g in (GotFloat x, g')
  | AskRandrange lower upper =>
      let (v, g') := rnd_randrange lower upper g in (GotInt v, g')
  | AskChoices n k => let (js, g') := rnd_choices n k g in (GotChoices js, g')
  | AskSample n k => let (js, g') := rnd_sample n k g in (GotSample js, g')
  end.

Fixpoint draw_sequence (qs : list request) (g : G) : list reply :=
  match qs with
  | [] => []
  | q :: qs' => let (a, g') := answer q g in a :: draw_sequence qs' g'
  end.

(** ** Observing a call *)

(** What the caller of a function that returns a list gets to see: the
    contents of the list returned, or the exception. *)
Definition returned_list (p : outcome nat * world) : outcome (list T) :=
  match p with
  | (Return res, w) =>
      match lists w !! res with
      | Some ys => Return ys
      | None => Wrong
      end
  | (Raise e, _) => Raise e
  | (Wrong, _) => Wrong
  end.

(** [w'] is [w] but for the state of the generator [r] and for the list
    objects created since: the lists and generators of [w] other than [r]
    are as they were, and no iterator was created or advanced. *)
Definition touches_only (r : nat) (w w' : world) : Prop :=
  lists_untouched w w' /\
  iters w' = iters w /\
  forall r' g, r' <> r -> rngs w !! r' = Some g -> rngs w' !! r' = Some g.

(** The state of a generator after [n] calls of [randrange(lower, upper)]. *)
Definition after_randranges (lower upper : Z) (n : nat) (g : G) : G :=
  Nat.iter n (fun g' => (rnd_randrange lower upper g').2) g.

End Core.

Arguments world G T : clear implicits.
Arguments M G T A : clear implicits.

(** ** A reference generator

    A 64-bit linear congruential generator with the methods of the
    interface written over it the way the standard library writes them over
    its own core: [randrange] through a bounded draw, [choices] by scaling a
    unit draw, [sample] by the pool algorithm (pick a position of the pool,
    move the last pool entry into the vacancy).  It is not the Mersenne
    Twister and reproduces none of Python's concrete outputs; it shows that
    [RandomLaws] has a model and lets the functions above be run. *)

Module RefGen.

Record state := State { word : Z }.

Definition step (s : state) : state :=
  State ((6364136223846793005 * word s + 1442695040888963407) mod 2 ^ 64).

(** The top 31 bits of the state. *)
Definition output (s : state) : Z := word s / 2 ^ 33.

Definition randbelow (n : Z) (s : state) : Z * state :=
  let s1 := step s in (output s1 mod n, s1).

Definition random (s : state) : Q * state :=
  let s1 := step s in (Qmake (output s1) 2147483648, s1).

Definition randrange (lower upper : Z) (s : state) : option Z * state :=
  if 0 <? upper - lower
  then let (v, s1) := randbelow (upper - lower) s in (Some (lower + v), s1)
  else (None, s).

Fixpoint choices_loop (n : nat) (k : nat) (s : state) : list nat * state :=
  match k with
  | O => ([], s)
  | S k' =>
      let s1 := step s in
      let j := Z.to_nat (output s1 * Z.of_nat n / 2 ^ 31) in
      let (js, s2) := choices_loop n k' s1 in
      (j :: js, s2)
  end.

Definition choices (n : nat) (k : Z) (s : state) : option (list nat) * state :=
  if k <=? ssize_max
  then let (js, s1) := choices_loop n (Z.to_nat k) s in (Some js, s1)
  else (None, s).

Fixpoint sample_loop (pool : list nat) (k : nat) (s : state) : list nat * state :=
  match k with
  | O => ([], s)
  | S k' =>
      let m := length pool in
      let (j, s1) := randbelow (Z.of_nat m) s in
      match pool !! Z.to_nat j, pool !! (m - 1)%nat with
      | Some x, Some y =>
          let (js, s2) :=
            sample_loop (take (m - 1) (<[Z.to_nat j := y]> pool)) k' s1 in
          (x :: js, s2)
      | _, _ => ([], s1)
      end
  end.

Definition sample (n : nat) (k : Z) (s : state) : option (list nat) * state :=
  if (0 <=? k) && (k <=? Z.of_nat n)
  then let (js, s1) := sample_loop (seq 0 n) (Z.to_nat k) s in (Some js, s1)
  else (None, s).

#[global] Instance ops : RandomOps state := {
  rnd_init n := State (Z.abs n mod 2 ^ 64);
  rnd_init_os e := State (e mod 2 ^ 64);
  rnd_random := random;
  rnd_randrange := randrange;
  rnd_choices := choices;
  rnd_sample := sample;
}.

(** A store with one list object and no generators, for running examples. *)
Definition store (T : Type) (xs : list T) : world state T :=
  World [] [xs] [] (fun _ => 0) 0.

(** The same with one generator, seeded with [n], at reference 0. *)
Definition store_rng (T : Type) (n : Z) (xs : list T) : world state T :=
  World [rnd_init n] [xs] [] (fun _ => 0) 0.

End RefGen.


(** * Properties *)

Section Properties.
Context {G : Type} {ops : RandomOps G} {laws : RandomLaws G} {T : Type}.
Implicit Types (w : world G T) (seed : pyvalue) (items : list_ref).

(** ** The store *)

Lemma set_rngs_same w : set_rngs (rngs w) w = w.
Proof. by destruct w. Qed.

Lemma on_rng_Some {A} (f : G -> A * G) r g w :
  rngs w !! r = Some g ->
  on_rng r f w = (Return (f g).1, set_rngs (<[r := (f g).2]> (rngs w)) w).
Proof.
  intros Hr. unfold on_rng. rewrite Hr. by destruct (f g).
Qed.

Lemma on_rng_idle {A} (f : G -> A * G) r g a w :
  rngs w !! r = Some g -> f g = (a, g) -> on_rng r f w = (Return a, w).
Proof.
  intros Hr Hf. rewrite (on_rng_Some f r g w Hr), Hf. simpl.
  by rewrite list_insert_id, set_rngs_same.
Qed.

Lemma rngs_untouched_refl w : rngs_untouched w w.
Proof. by intros r g. Qed.

Lemma lists_untouched_refl w : lists_untouched w w.
Proof. by intros l xs. Qed.

Lemma new_list_lookup (xs : list T) w :
  (lists w ++ [xs]) !! length (lists w) = Some xs.
Proof. by apply list_lookup_middle. Qed.

Lemma len_Some items (xs : list T) w :
  lists w !! items = Some xs -> len items w = (Return (length xs), w).
Proof. intros Hl. unfold len. by rewrite Hl. Qed.

Lemma read_list_Some items (xs : list T) w :
  lists w !! items = Some xs -> read_list items w = (Return xs, w).
Proof. intros Hl. unfold read_list. by rewrite Hl. Qed.

(** ** Selecting by position *)

Lemma select_in_range (xs : list T) js w :
  Forall (fun j => (j < length xs)%nat) js ->
  exists ys, select xs js w = (Return ys, w) /\ drawn_at xs js ys.
Proof.
  intros Hjs.
  destruct (mapM_is_Some_2 (fun j => xs !! j) js) as [ys Hys].
  { eapply Forall_impl; [exact Hjs|]. intros j Hj. by apply lookup_lt_is_Some_2. }
  exists ys. unfold select. rewrite Hys. split; [done|]. by apply mapM_Some.
Qed.

Lemma drawn_at_length (xs : list T) js ys :
  drawn_at xs js ys -> length ys = length js.
Proof. intros Hd. symmetry. exact (Forall2_length _ _ _ Hd). Qed.

Lemma drawn_at_elem_of (xs : list T) js ys y :
  drawn_at xs js ys -> y ∈ ys -> y ∈ xs.
Proof.
  intros Hd Hy. apply list_elem_of_lookup in Hy as [i Hi].
  destruct (Forall2_lookup_r _ _ _ _ _ Hd Hi) as (j & _ & Hj).
  apply list_elem_of_lookup. by exists j.
Qed.

Lemma drawn_at_NoDup (xs : list T) js ys :
  drawn_at xs js ys -> NoDup js -> NoDup xs -> NoDup ys.
Proof.
  intros Hd Hjs Hxs. apply NoDup_alt. intros a b y Ha Hb.
  destruct (Forall2_lookup_r _ _ _ _ _ Hd Ha) as (ja & Hja & Hxa).
  destruct (Forall2_lookup_r _ _ _ _ _ Hd Hb) as (jb & Hjb & Hxb).
  pose proof (proj1 (NoDup_alt xs) Hxs _ _ _ Hxa Hxb) as <-.
  exact (proj1 (NoDup_alt js) Hjs _ _ _ Hja Hjb).
Qed.

Lemma drawn_at_omap (xs : list T) js ys :
  drawn_at xs js ys -> omap (fun j => xs !! j) js = ys.
Proof.
  induction 1 as [|j y js ys Hj _ IH]; [done|].
  cbn. rewrite Hj. cbn. by rewrite IH.
Qed.

Lemma omap_lookup_seq (pre xs : list T) :
  omap (fun j => (pre ++ xs) !! j) (seq (length pre) (length xs)) = xs.
Proof.
  revert pre. induction xs as [|x xs IH]; intros pre; [done|].
  cbn. rewrite list_lookup_middle by done. cbn. f_equal.
  specialize (IH (pre ++ [x])).
  rewrite length_app, Nat.add_1_r, <- app_assoc in IH. exact IH.
Qed.

(** Positions without repetition, as many as the list is long, cover the
    list: what is drawn at them is a rearrangement of it. *)
Lemma drawn_at_all_Permutation (xs : list T) js ys :
  drawn_at xs js ys -> NoDup js -> length js = length xs -> ys ≡ₚ xs.
Proof.
  intros Hd Hnd Hlen.
  assert (Hperm : js ≡ₚ seq 0 (length xs)).
  { apply submseteq_length_Permutation.
    - apply NoDup_submseteq; [done|]. intros j Hj.
      apply list_elem_of_lookup in Hj as [i Hi].
      destruct (Forall2_lookup_l _ _ _ _ _ Hd Hi) as (y & _ & Hy).
      apply elem_of_seq. apply lookup_lt_Some in Hy. lia.
    - rewrite length_seq. lia. }
  rewrite <- (drawn_at_omap xs js ys Hd), Hperm.
  pose proof (omap_lookup_seq [] xs) as Hall. simpl in Hall. by rewrite Hall.
Qed.

(** ** Resolving a seed *)

(** A valid seed resolves to a generator that exists afterwards; lists and
    iterators are as before, and so is every generator that existed. *)
Lemma get_rng_valid seed w :
  valid_seed w seed ->
  exists r w1,
    get_rng seed w = (Return r, w1) /\ is_Some (rngs w1 !! r) /\
    lists w1 = lists w /\ iters w1 = iters w /\ rngs_untouched w w1.
Proof.
  intros Hseed.
  destruct seed as [ |n|b|x|s|r|l]; simpl in Hseed; try contradiction.
  - eexists _, _. split; [reflexivity|]. simpl. repeat split.
    + by rewrite list_lookup_middle.
    + intros r g Hr. by apply lookup_app_l_Some.
  - eexists _, _. split; [reflexivity|]. simpl. repeat split.
    + by rewrite list_lookup_middle.
    + intros r g Hr. by apply lookup_app_l_Some.
  - eexists _, _. split; [reflexivity|]. simpl. repeat split.
    + by rewrite list_lookup_middle.
    + intros r g Hr. by apply lookup_app_l_Some.
  - exists r, w. repeat split; auto using rngs_untouched_refl.
Qed.

Lemma get_rng_foreign seed w :
  foreign_seed seed -> get_rng seed w = (Raise (ValueError BadSeed), w).
Proof. by destruct seed. Qed.

(** ** Floats *)

Lemma float_lt_finite (x q : Q) :
  float_lt (Finite x) (Finite q) = true <-> (x < q)%Q.
Proof.
  simpl. rewrite negb_true_iff, <- not_true_iff_false, Qle_bool_iff.
  split; [apply Qnot_le_lt | apply Qlt_not_le].
Qed.

Lemma unit_interval_check bias :
  float_le (Finite 0) bias && float_le bias (Finite 1) = true <->
  in_unit_interval bias.
Proof.
  destruct bias as [q| | | ]; simpl; try (split; [discriminate|tauto]).
  by rewrite andb_true_iff, !Qle_bool_iff.
Qed.

(** C3.  [get_rng] on an existing generator instance returns the very
    reference it was given: no new object is created and the store, hence
    the state of the generator, is exactly as before. *)
Theorem get_rng_passthrough (r : rng_ref) w :
  get_rng (PyRandom r) w = (Return r, w).
Proof. reflexivity. Qed.

(** C2.  Resolving the same integer seed twice, in whatever stores, gives
    two generators in the same state, so every sequence of draws asked of
    the one gets the answers the other gives; resolved one after the other
    in one store, the two are different objects. *)
Theorem get_rng_same_seed (s : Z) w w' :
  exists r1 w1 r2 w2 g,
    get_rng (PyInt s) w = (Return r1, w1) /\
    get_rng (PyInt s) w' = (Return r2, w2) /\
    rngs w1 !! r1 = Some g /\ rngs w2 !! r2 = Some g /\
    (forall qs g1 g2,
       rngs w1 !! r1 = Some g1 -> rngs w2 !! r2 = Some g2 ->
       draw_sequence qs g1 = draw_sequence qs g2) /\
    (w' = w1 -> r1 <> r2).
Proof.
  eexists _, _, _, _, (rnd_init s).
  split; [reflexivity|]. split; [reflexivity|]. simpl.
  rewrite !list_lookup_middle by reflexivity.
  repeat split.
  - intros qs g1 g2 [= <-] [= <-]. reflexivity.
  - intros ->. simpl. rewrite length_app. simpl. lia.
Qed.

(** C10.  A seed that is neither absent, an integer nor a generator makes
    [integers] raise at construction, whatever [size] and the bounds are
    (no iterator is created and nothing is consumed), and makes [draw]
    raise before [size] is looked at, so also for a negative [size]; both
    leave the store as it was. *)
Theorem foreign_seed_raises_first seed size lower upper items replace w :
  foreign_seed seed ->
  integers size lower upper seed w = (Raise (ValueError BadSeed), w) /\
  draw items replace size seed w = (Raise (ValueError BadSeed), w) /\
  kind_of (ValueError BadSeed) = Some InvalidSeed.
Proof.
  intros Hseed. unfold integers, draw, bind.
  by rewrite (get_rng_foreign seed w Hseed).
Qed.

(** C6.  With [bias] in [0, 1] and a valid seed, [coinflip] resolves the
    seed, makes one call to [random] on that generator and returns whether
    the value drawn is strictly below [bias]; so it returns false for bias
    0 and true for bias 1.  With [bias] outside [0, 1] (a NaN and the
    infinities included) it raises the bias error and touches nothing. *)
Theorem coinflip_spec seed w :
  (forall q, (0 <= q)%Q -> (q <= 1)%Q -> valid_seed w seed ->
     exists r w1 g b,
       get_rng seed w = (Return r, w1) /\ rngs w1 !! r = Some g /\
       coinflip (Finite q) seed w =
         (Return b, set_rngs (<[r := (rnd_random g).2]> (rngs w1)) w1) /\
       (0 <= (rnd_random g).1)%Q /\ ((rnd_random g).1 < 1)%Q /\
       (b = true <-> ((rnd_random g).1 < q)%Q) /\
       (q == 0 -> b = false)%Q /\ (q == 1 -> b = true)%Q) /\
  (forall bias, ~ in_unit_interval bias ->
     coinflip bias seed w = (Raise (ValueError BiasOutOfRange), w) /\
     kind_of (ValueError BiasOutOfRange) = Some InvalidBias).
Proof.
  split.
  - intros q Hq0 Hq1 Hseed.
    destruct (get_rng_valid seed w Hseed) as (r & w1 & Hget & [g Hg] & _).
    destruct (random_unit g) as [Hx0 Hx1].
    exists r, w1, g, (float_lt (Finite (rnd_random g).1) (Finite q)).
    split; [done|]. split; [done|].
    split; [|split; [done|split; [done|split; [|split]]]].
    + unfold coinflip.
      assert (Hin : in_unit_interval (Finite q)) by (by split).
      apply unit_interval_check in Hin. rewrite Hin. cbn [negb].
      unfold bind, call_random. rewrite Hget.
      by rewrite (on_rng_Some rnd_random r g w1 Hg).
    + apply float_lt_finite.
    + intros Hq. apply not_true_iff_false. rewrite float_lt_finite, Hq.
      by apply Qle_not_lt.
    + intros Hq. apply float_lt_finite. by rewrite Hq.
  - intros bias Hout. split; [|done]. unfold coinflip.
    destruct (float_le (Finite 0) bias && float_le bias (Finite 1)) eqn:Hchk.
    + by apply unit_interval_check in Hchk.
    + reflexivity.
Qed.

(** ** [draw] *)

Lemma draw_resolved items replace size seed w r w1 :
  get_rng seed w = (Return r, w1) ->
  draw items replace size seed w =
    (if size <? 0 then raise (ValueError NegativeSize)
     else bind (len items) (fun n =>
       if (n =? 0)%nat || (size =? 0) then new_list []
       else if replace then call_choices r items size
       else call_sample r items size)) w1.
Proof. intros Hget. unfold draw at 1, bind at 1. by rewrite Hget. Qed.

Lemma call_sample_ok r items (xs : list T) k g w :
  lists w !! items = Some xs -> rngs w !! r = Some g ->
  0 <= k <= Z.of_nat (length xs) ->
  exists js ys,
    call_sample r items k w =
      (Return (length (lists w)),
       set_lists (lists w ++ [ys])
         (set_rngs (<[r := (rnd_sample (length xs) k g).2]> (rngs w)) w)) /\
    length js = Z.to_nat k /\ NoDup js /\ drawn_at xs js ys.
Proof.
  intros Hl Hr Hk.
  destruct (sample_ok (length xs) k g Hk) as (js & Hjs & Hlen & Hnd & Hlt).
  set (w2 := set_rngs (<[r := (rnd_sample (length xs) k g).2]> (rngs w)) w).
  destruct (select_in_range xs js w2 Hlt) as (ys & Hsel & Hd).
  exists js, ys. split; [|done].
  unfold call_sample, bind. rewrite (read_list_Some items xs w Hl).
  rewrite (on_rng_Some _ r g w Hr), Hjs. fold w2. by rewrite Hsel.
Qed.

Lemma call_sample_too_large r items (xs : list T) k g w :
  lists w !! items = Some xs -> rngs w !! r = Some g ->
  ~ (0 <= k <= Z.of_nat (length xs)) ->
  call_sample r items k w = (Raise (ValueError SampleTooLarge), w).
Proof.
  intros Hl Hr Hk. unfold call_sample, bind.
  rewrite (read_list_Some items xs w Hl).
  by rewrite (on_rng_idle _ r g None w Hr (sample_too_large _ _ _ Hk)).
Qed.

(** A draw without replacement within the size of the list: a new list,
    read off [items] at positions that do not repeat. *)
Lemma draw_positions items (xs : list T) size seed w :
  lists w !! items = Some xs -> xs <> [] ->
  0 <= size <= Z.of_nat (length xs) -> valid_seed w seed ->
  exists res w' ys js,
    draw items false size seed w = (Return res, w') /\
    lists w' !! res = Some ys /\
    length js = Z.to_nat size /\ NoDup js /\ drawn_at xs js ys.
Proof.
  intros Hl Hne Hsize Hseed.
  destruct (get_rng_valid seed w Hseed) as (r & w1 & Hget & [g Hg] & Hls & _).
  rewrite (draw_resolved _ _ _ _ _ _ _ Hget).
  rewrite <- Hls in Hl.
  destruct (Z.ltb_spec size 0) as [?|_]; [lia|].
  unfold bind. rewrite (len_Some items xs w1 Hl).
  destruct xs as [|x xs']; [done|]. cbn [length Nat.eqb orb].
  destruct (Z.eqb_spec size 0) as [->|Hzero].
  - eexists _, _, [], []. split; [reflexivity|]. simpl.
    rewrite new_list_lookup. repeat split; constructor.
  - destruct (call_sample_ok r items (x :: xs') size g w1 Hl Hg Hsize)
      as (js & ys & Hcall & Hlen & Hnd & Hd).
    eexists _, _, ys, js. split; [exact Hcall|]. simpl.
    by rewrite new_list_lookup.
Qed.

(** The same, with what the call leaves alone: the list returned did not
    exist before, and every list that did keeps its contents. *)
Lemma draw_positions_new items (xs : list T) size seed w :
  lists w !! items = Some xs -> xs <> [] ->
  0 <= size <= Z.of_nat (length xs) -> valid_seed w seed ->
  exists res w' ys js,
    draw items false size seed w = (Return res, w') /\
    lists w' !! res = Some ys /\
    length js = Z.to_nat size /\ NoDup js /\ drawn_at xs js ys /\
    lists w !! res = None /\ lists_untouched w w'.
Proof.
  intros Hl Hne Hsize Hseed.
  destruct (get_rng_valid seed w Hseed) as (r & w1 & Hget & [g Hg] & Hls & _).
  rewrite (draw_resolved _ _ _ _ _ _ _ Hget).
  assert (Hl1 : lists w1 !! items = Some xs) by (by rewrite Hls).
  assert (Hfresh : lists w !! length (lists w1) = None).
  { rewrite Hls. by apply lookup_ge_None_2. }
  assert (Hkeep : forall (ys : list T) (gs : list G),
            lists_untouched w (set_lists (lists w1 ++ [ys]) (set_rngs gs w1))).
  { intros ys gs l zs Hz. simpl. rewrite Hls. by apply lookup_app_l_Some. }
  destruct (Z.ltb_spec size 0) as [?|_]; [lia|].
  unfold bind. rewrite (len_Some items xs w1 Hl1).
  destruct xs as [|x xs']; [done|]. cbn [length Nat.eqb orb].
  destruct (Z.eqb_spec size 0) as [->|Hzero].
  - exists (length (lists w1)), (set_lists (lists w1 ++ [[]]) w1), [], [].
    split; [reflexivity|]. split; [simpl; by rewrite new_list_lookup|].
    split; [done|]. split; [constructor|]. split; [constructor|].
    split; [done|].
    intros l zs Hz. simpl. rewrite Hls. by apply lookup_app_l_Some.
  - destruct (call_sample_ok r items (x :: xs') size g w1 Hl1 Hg Hsize)
      as (js & ys & Hcall & Hlen & Hnd & Hd).
    eexists _, _, ys, js. split; [exact Hcall|].
    split; [simpl; by rewrite new_list_lookup|].
    split; [done|]. split; [done|]. split; [done|]. split; [done|].
    apply Hkeep.
Qed.

(** C1, as amended.  Without replacement, on a non-empty list and with
    [0 <= size <= len(items)], [draw] returns a list of [size] elements
    standing at pairwise different positions of [items]; each is an element
    of [items], and they are pairwise different whenever the elements of
    [items] are.  The list returned is a new object: its reference was free
    before the call, so it is not [items], and every list that existed,
    [items] included, keeps its contents. *)
Theorem draw_without_replacement items (xs : list T) size seed w :
  lists w !! items = Some xs -> xs <> [] ->
  0 <= size <= Z.of_nat (length xs) -> valid_seed w seed ->
  exists res w' ys js,
    draw items false size seed w = (Return res, w') /\
    lists w' !! res = Some ys /\
    Z.of_nat (length ys) = size /\
    NoDup js /\ drawn_at xs js ys /\
    (forall y, y ∈ ys -> y ∈ xs) /\
    (NoDup xs -> NoDup ys) /\
    lists w !! res = None /\ res <> items /\
    lists_untouched w w'.
Proof.
  intros Hl Hne Hsize Hseed.
  destruct (draw_positions_new items xs size seed w Hl Hne Hsize Hseed)
    as (res & w' & ys & js & Hdraw & Hres & Hlen & Hnd & Hd & Hfresh & Hkeep).
  exists res, w', ys, js. split; [done|]. split; [done|].
  split; [|split; [done|split; [done|split; [|split; [|split; [done|split; [|done]]]]]]].
  - rewrite (drawn_at_length _ _ _ Hd), Hlen. lia.
  - intros y. by apply drawn_at_elem_of with (js := js).
  - by apply drawn_at_NoDup with (js := js).
  - intros ->. rewrite Hl in Hfresh. discriminate.
Qed.

(** Whatever the generator, two draws without replacement from a list
    that holds one element twice give that element twice. *)
Lemma draw_of_repeated_item items (x : T) seed w :
  lists w !! items = Some [x; x] -> valid_seed w seed ->
  exists res w',
    draw items false 2 seed w = (Return res, w') /\
    lists w' !! res = Some [x; x].
Proof.
  intros Hl Hseed.
  destruct (draw_positions items [x; x] 2 seed w Hl)
    as (res & w' & ys & js & Hdraw & Hres & Hlen & _ & Hd);
    [done | simpl; lia | done |].
  exists res, w'. split; [done|]. rewrite Hres. f_equal.
  assert (Hx : forall y, y ∈ ys -> y = x).
  { intros y Hy. apply (drawn_at_elem_of _ _ _ _ Hd) in Hy.
    apply elem_of_cons in Hy as [Hy|Hy]; [done|].
    apply elem_of_cons in Hy as [Hy|Hy]; [done|].
    by apply elem_of_nil in Hy. }
  apply drawn_at_length in Hd. rewrite Hlen in Hd.
  destruct ys as [|y1 [|y2 [|y3 ys]]]; try discriminate.
  rewrite (Hx y1), (Hx y2); [done| |].
  - apply elem_of_cons. right. apply elem_of_cons. by left.
  - apply elem_of_cons. by left.
Qed.

(** C4.  With a valid seed, [draw] raises the size error when [size] is
    negative, whatever [items] and [replace] are, and when, without
    replacement, [size] exceeds the length of a non-empty [items].  In both
    cases the store it leaves is the one seed resolution left: no draw has
    been made on the resolved generator. *)
Theorem draw_invalid_size items replace size seed w :
  valid_seed w seed ->
  size < 0 \/
  (replace = false /\
   exists xs, lists w !! items = Some xs /\ xs <> [] /\ Z.of_nat (length xs) < size) ->
  exists r w1 e,
    get_rng seed w = (Return r, w1) /\
    draw items replace size seed w = (Raise e, w1) /\
    kind_of e = Some InvalidSize.
Proof.
  intros Hseed Hsize.
  destruct (get_rng_valid seed w Hseed) as (r & w1 & Hget & [g Hg] & Hls & _).
  exists r, w1. rewrite (draw_resolved _ _ _ _ _ _ _ Hget).
  destruct Hsize as [Hneg | (-> & xs & Hl & Hne & Hbig)].
  - exists (ValueError NegativeSize). split; [done|]. split; [|done].
    apply Z.ltb_lt in Hneg. by rewrite Hneg.
  - exists (ValueError SampleTooLarge). split; [done|]. split; [|done].
    rewrite <- Hls in Hl.
    destruct (size <? 0) eqn:Hneg; [lia|].
    unfold bind. rewrite (len_Some items xs w1 Hl).
    destruct xs as [|x xs']; [done|]. cbn [length Nat.eqb orb].
    destruct (size =? 0) eqn:Hzero; [lia|].
    apply (call_sample_too_large r items (x :: xs') size g w1 Hl Hg). lia.
Qed.

(** C5, as amended.  With a valid seed and [size >= 0], if [items] is
    empty or [size] is 0 then [draw] returns an empty list, for either
    value of [replace]; the generators are exactly as seed resolution left
    them, so no draw was made and a generator passed in keeps its state.
    The empty list is a new object: its reference was free before the
    call, so it is not [items], and every list that existed keeps its
    contents. *)
Theorem draw_short_circuit items (xs : list T) replace size seed w :
  lists w !! items = Some xs -> valid_seed w seed ->
  0 <= size -> xs = [] \/ size = 0 ->
  exists r w1 res w',
    get_rng seed w = (Return r, w1) /\
    draw items replace size seed w = (Return res, w') /\
    lists w' !! res = Some [] /\
    rngs w' = rngs w1 /\
    rngs_untouched w w' /\
    lists w !! res = None /\ res <> items /\
    lists_untouched w w'.
Proof.
  intros Hl Hseed Hsize Hshort.
  destruct (get_rng_valid seed w Hseed) as (r & w1 & Hget & _ & Hls & _ & Hfr).
  exists r, w1, (length (lists w1)), (set_lists (lists w1 ++ [[]]) w1).
  split; [done|]. rewrite (draw_resolved _ _ _ _ _ _ _ Hget).
  assert (Hl1 : lists w1 !! items = Some xs) by (by rewrite Hls).
  assert (Hfresh : lists w !! length (lists w1) = None).
  { rewrite Hls. by apply lookup_ge_None_2. }
  destruct (size <? 0) eqn:Hneg; [lia|].
  unfold bind. rewrite (len_Some items xs w1 Hl1).
  assert ((length xs =? 0)%nat || (size =? 0) = true) as ->.
  { destruct Hshort as [-> | ->]; [done|]. by rewrite orb_true_r. }
  split; [done|]. split; [simpl; by rewrite new_list_lookup|].
  split; [done|]. split; [done|]. split; [done|]. split.
  - intros Heq. rewrite Heq, Hl in Hfresh. discriminate.
  - intros l zs Hz. simpl. rewrite Hls. by apply lookup_app_l_Some.
Qed.

Lemma call_choices_ok r items (xs : list T) k g w :
  lists w !! items = Some xs -> rngs w !! r = Some g -> xs <> [] ->
  k <= ssize_max ->
  exists js ys,
    call_choices r items k w =
      (Return (length (lists w)),
       set_lists (lists w ++ [ys])
         (set_rngs (<[r := (rnd_choices (length xs) k g).2]> (rngs w)) w)) /\
    length js = Z.to_nat k /\ drawn_at xs js ys.
Proof.
  intros Hl Hr Hne Hk.
  destruct (choices_ok (length xs) k g) as (js & Hjs & Hlen & Hlt); [|done|].
  { destruct xs; [done|simpl; lia]. }
  set (w2 := set_rngs (<[r := (rnd_choices (length xs) k g).2]> (rngs w)) w).
  destruct (select_in_range xs js w2 Hlt) as (ys & Hsel & Hd).
  exists js, ys. split; [|done].
  unfold call_choices, bind. rewrite (read_list_Some items xs w Hl).
  rewrite (on_rng_Some _ r g w Hr), Hjs. fold w2. by rewrite Hsel.
Qed.

Lemma call_choices_too_many r items (xs : list T) k g w :
  lists w !! items = Some xs -> rngs w !! r = Some g -> ssize_max < k ->
  call_choices r items k w = (Raise OverflowError, w).
Proof.
  intros Hl Hr Hk. unfold call_choices, bind.
  rewrite (read_list_Some items xs w Hl).
  by rewrite (on_rng_idle _ r g None w Hr (choices_overflow _ _ _ Hk)).
Qed.

(** With replacement, on a non-empty list and with a valid seed: for
    [0 <= size <= sys.maxsize], [draw] returns a list of [size] elements,
    each standing at some position of [items]; [size] may exceed the
    length of [items]; the list is a new object and every list that
    existed, [items] included, keeps its contents.  For a larger [size]
    the call raises [OverflowError], and the store is as seed resolution
    left it. *)
Theorem draw_with_replacement items (xs : list T) size seed w :
  lists w !! items = Some xs -> xs <> [] -> valid_seed w seed ->
  (0 <= size <= ssize_max ->
   exists res w' ys js,
     draw items true size seed w = (Return res, w') /\
     lists w' !! res = Some ys /\
     Z.of_nat (length ys) = size /\
     drawn_at xs js ys /\
     (forall y, y ∈ ys -> y ∈ xs) /\
     lists w !! res = None /\ res <> items /\
     lists_untouched w w') /\
  (ssize_max < size ->
   exists r w1,
     get_rng seed w = (Return r, w1) /\
     draw items true size seed w = (Raise OverflowError, w1)).
Proof.
  intros Hl Hne Hseed.
  destruct (get_rng_valid seed w Hseed) as (r & w1 & Hget & [g Hg] & Hls & _).
  rewrite (draw_resolved _ _ _ _ _ _ _ Hget).
  assert (Hl1 : lists w1 !! items = Some xs) by (by rewrite Hls).
  assert (Hfresh : lists w !! length (lists w1) = None).
  { rewrite Hls. by apply lookup_ge_None_2. }
  assert (Hother : length (lists w1) <> items).
  { intros Heq. rewrite Heq, Hl in Hfresh. discriminate. }
  assert (Hkeep : forall (ys : list T) (gs : list G),
            lists_untouched w (set_lists (lists w1 ++ [ys]) (set_rngs gs w1))).
  { intros ys gs l zs Hz. simpl. rewrite Hls. by apply lookup_app_l_Some. }
  destruct xs as [|x xs']; [done|].
  split.
  - intros Hsize.
    destruct (Z.ltb_spec size 0) as [?|_]; [lia|].
    unfold bind. rewrite (len_Some items (x :: xs') w1 Hl1).
    cbn [length Nat.eqb orb].
    destruct (Z.eqb_spec size 0) as [->|Hzero].
    + exists (length (lists w1)), (set_lists (lists w1 ++ [[]]) w1), [], [].
      split; [reflexivity|]. split; [simpl; by rewrite new_list_lookup|].
      split; [done|]. split; [constructor|].
      split; [intros y Hy; by apply elem_of_nil in Hy|].
      split; [done|]. split; [done|].
      intros l zs Hz. simpl. rewrite Hls. by apply lookup_app_l_Some.
    + destruct (call_choices_ok r items (x :: xs') size g w1 Hl1 Hg Hne)
        as (js & ys & Hcall & Hlen & Hd); [lia|].
      eexists _, _, ys, js. split; [exact Hcall|].
      split; [simpl; by rewrite new_list_lookup|].
      split; [rewrite (drawn_at_length _ _ _ Hd), Hlen; lia|].
      split; [done|].
      split; [intros y; by apply drawn_at_elem_of with (js := js)|].
      split; [done|]. split; [done|]. apply Hkeep.
  - intros Hbig. exists r, w1. split; [done|].
    assert (0 < ssize_max) by done.
    destruct (Z.ltb_spec size 0) as [?|_]; [lia|].
    unfold bind. rewrite (len_Some items (x :: xs') w1 Hl1).
    cbn [length Nat.eqb orb].
    destruct (Z.eqb_spec size 0) as [?|_]; [lia|].
    by apply (call_choices_too_many r items (x :: xs') size g w1).
Qed.

(** ** [shuffle] *)

(** C7.  With a valid seed, [shuffle] returns a list object that did not
    exist before (so it is not [items]), holding a permutation of the
    elements of [items]; every list that existed, [items] among them, has
    the contents it had; and the call is the without-replacement [draw] of
    size [len(items)]. *)
Theorem shuffle_permutation items (xs : list T) seed w :
  lists w !! items = Some xs -> valid_seed w seed ->
  exists res w' ys,
    shuffle items seed w = (Return res, w') /\
    lists w' !! res = Some ys /\
    ys ≡ₚ xs /\ length ys = length xs /\
    lists w !! res = None /\ res <> items /\
    lists_untouched w w' /\
    shuffle items seed w = draw items false (Z.of_nat (length xs)) seed w.
Proof.
  intros Hl Hseed.
  assert (Hsh : shuffle items seed w =
                draw items false (Z.of_nat (length xs)) seed w).
  { unfold shuffle, bind. by rewrite (len_Some items xs w Hl). }
  rewrite Hsh.
  destruct (get_rng_valid seed w Hseed) as (r & w1 & Hget & [g Hg] & Hls & _).
  rewrite (draw_resolved _ _ _ _ _ _ _ Hget).
  assert (Hl1 : lists w1 !! items = Some xs) by (by rewrite Hls).
  assert (Hfresh : lists w !! length (lists w1) = None).
  { rewrite Hls. by apply lookup_ge_None_2. }
  assert (Hother : length (lists w1) <> items).
  { intros Heq. rewrite Heq, Hl in Hfresh. discriminate. }
  assert (Hkeep : forall ys, lists_untouched w (set_lists (lists w1 ++ [ys]) w1)).
  { intros ys l zs Hz. simpl. rewrite Hls. by apply lookup_app_l_Some. }
  destruct (Z.ltb_spec (Z.of_nat (length xs)) 0) as [Hneg|_]; [lia|].
  unfold bind. rewrite (len_Some items xs w1 Hl1).
  destruct xs as [|x xs'].
  - exists (length (lists w1)), (set_lists (lists w1 ++ [[]]) w1), [].
    simpl. rewrite new_list_lookup. by repeat split.
  - cbn [length Nat.eqb orb].
    destruct (Z.eqb_spec (Z.of_nat (S (length xs'))) 0) as [Hzero|_]; [lia|].
    destruct (call_sample_ok r items (x :: xs')
                (Z.of_nat (S (length xs'))) g w1 Hl1 Hg)
      as (js & ys & Hcall & Hlen & Hnd & Hd); [simpl; lia|].
    eexists _, _, ys. split; [exact Hcall|].
    rewrite Nat2Z.id in Hlen.
    split; [simpl; by rewrite new_list_lookup|].
    split; [by apply drawn_at_all_Permutation with (js := js)|].
    split; [by rewrite (drawn_at_length _ _ _ Hd)|].
    repeat split; try done. apply Hkeep.
Qed.

(** ** [integers] *)

Lemma integers_valid size lower upper seed w :
  valid_seed w seed ->
  exists r w0 g,
    get_rng seed w = (Return r, w0) /\ rngs w0 !! r = Some g /\
    integers size lower upper seed w =
      (Return (length (iters w0)),
       set_iters (iters w0 ++ [Suspended r lower upper (Z.to_nat size)]) w0).
Proof.
  intros Hseed.
  destruct (get_rng_valid seed w Hseed) as (r & w0 & Hget & [g Hg] & _).
  exists r, w0, g. split; [done|]. split; [done|].
  unfold integers, bind. by rewrite Hget.
Qed.

Lemma next_exhausted it r lower upper w :
  iters w !! it = Some (Suspended r lower upper 0) ->
  next it w = (Raise StopIteration, set_iters (<[it := Finished]> (iters w)) w).
Proof. intros Hit. unfold next. by rewrite Hit. Qed.

Lemma next_in_range it r lower upper k g w :
  iters w !! it = Some (Suspended r lower upper (S k)) ->
  rngs w !! r = Some g -> lower < upper ->
  exists v,
    next it w =
      (Return v,
       set_iters (<[it := Suspended r lower upper k]> (iters w))
         (set_rngs (<[r := (rnd_randrange lower upper g).2]> (rngs w)) w)) /\
    lower <= v < upper.
Proof.
  intros Hit Hr Hlt.
  destruct (randrange_ok lower upper g Hlt) as (v & Hv & Hrange).
  exists v. split; [|done].
  unfold next. rewrite Hit. unfold call_randrange, bind.
  by rewrite (on_rng_Some _ r g w Hr), Hv.
Qed.

Lemma next_empty_range it r lower upper k g w :
  iters w !! it = Some (Suspended r lower upper (S k)) ->
  rngs w !! r = Some g -> upper <= lower ->
  next it w =
    (Raise (ValueError EmptyRandrange), set_iters (<[it := Finished]> (iters w)) w).
Proof.
  intros Hit Hr Hle. unfold next. rewrite Hit. unfold call_randrange, bind.
  by rewrite (on_rng_idle _ r g None w Hr (randrange_empty _ _ _ Hle)).
Qed.

Lemma next_finished it w :
  iters w !! it = Some Finished -> next it w = (Raise StopIteration, w).
Proof. intros Hit. unfold next. by rewrite Hit. Qed.

(** Consuming an iterator with a non-empty range: as many values as it
    holds, each in range, and the iterator is finished afterwards. *)
Lemma collect_in_range it r lower upper :
  lower < upper ->
  forall k w,
    iters w !! it = Some (Suspended r lower upper k) ->
    is_Some (rngs w !! r) ->
    exists vs w',
      collect (S k) it w = (Return vs, w') /\
      length vs = k /\ Forall (fun v => lower <= v < upper) vs /\
      iters w' !! it = Some Finished.
Proof.
  intros Hlt. induction k as [|k IH]; intros w Hit [g Hg].
  - exists [], (set_iters (<[it := Finished]> (iters w)) w).
    cbn [collect]. rewrite (next_exhausted it r lower upper w Hit).
    repeat split; [constructor|]. simpl.
    apply list_lookup_insert_eq. by apply lookup_lt_Some in Hit.
  - destruct (next_in_range it r lower upper k g w Hit Hg Hlt)
      as (v & Hnext & Hv).
    set (w1 := set_iters (<[it := Suspended r lower upper k]> (iters w))
                 (set_rngs (<[r := (rnd_randrange lower upper g).2]> (rngs w)) w))
      in Hnext.
    destruct (IH w1) as (vs & w' & Hrest & Hlen & Hall & Hfin).
    { simpl. apply list_lookup_insert_eq. by apply lookup_lt_Some in Hit. }
    { simpl. eexists. apply list_lookup_insert_eq. by apply lookup_lt_Some in Hg. }
    exists (v :: vs), w'.
    change (collect (S (S k)) it w) with
      (match next it w with
       | (Return v, w1) =>
           match collect (S k) it w1 with
           | (Return vs, w2) => (Return (v :: vs), w2)
           | other => other
           end
       | (Raise StopIteration, w1) => (Return [], w1)
       | (Raise e, w1) => (Raise e, w1)
       | (Wrong, w1) => (Wrong, w1)
       end).
    rewrite Hnext, Hrest. repeat split; [simpl; lia | by constructor | done].
Qed.

Lemma tuple_finished it w :
  iters w !! it = Some Finished -> tuple it w = (Return [], w).
Proof.
  intros Hit. unfold tuple, remaining_items. rewrite Hit.
  cbn [collect]. by rewrite (next_finished it w Hit).
Qed.

(** C8.  With [lower < upper], [size >= 0] and a valid seed, [integers]
    returns an iterator whose consumption yields exactly [size] values,
    each [v] with [lower <= v < upper]; once consumed it yields nothing
    more. *)
Theorem integers_in_range size lower upper seed w :
  lower < upper -> 0 <= size -> valid_seed w seed ->
  exists it w1 vs w2,
    integers size lower upper seed w = (Return it, w1) /\
    tuple it w1 = (Return vs, w2) /\
    Z.of_nat (length vs) = size /\
    Forall (fun v => lower <= v < upper) vs /\
    tuple it w2 = (Return [], w2).
Proof.
  intros Hlt Hsize Hseed.
  destruct (integers_valid size lower upper seed w Hseed)
    as (r & w0 & g & _ & Hg & Hint).
  set (w1 := set_iters (iters w0 ++ [Suspended r lower upper (Z.to_nat size)]) w0)
    in Hint.
  assert (Hit : iters w1 !! length (iters w0) =
                Some (Suspended r lower upper (Z.to_nat size))).
  { simpl. by apply list_lookup_middle. }
  destruct (collect_in_range _ r lower upper Hlt _ w1 Hit)
    as (vs & w2 & Hcol & Hlen & Hall & Hfin); [by exists g|].
  exists (length (iters w0)), w1, vs, w2. split; [done|].
  split; [|split; [lia|split; [done|by apply tuple_finished]]].
  unfold tuple, remaining_items. by rewrite Hit.
Qed.

(** C9.  With [lower >= upper] and a valid seed, building the iterator
    succeeds.  If [size > 0], the first [next] raises the empty-range
    error; if [size <= 0] (so for [size = 0]) the iterator is empty and the
    bounds are never looked at.  Either way only the iterator changes: the
    generators are as seed resolution left them. *)
Theorem integers_empty_range size lower upper seed w :
  upper <= lower -> valid_seed w seed ->
  exists it w1,
    integers size lower upper seed w = (Return it, w1) /\
    let w2 := set_iters (<[it := Finished]> (iters w1)) w1 in
    (0 < size ->
       next it w1 = (Raise (ValueError EmptyRandrange), w2) /\
       tuple it w1 = (Raise (ValueError EmptyRandrange), w2) /\
       kind_of (ValueError EmptyRandrange) = Some EmptyRange) /\
    (size <= 0 ->
       next it w1 = (Raise StopIteration, w2) /\
       tuple it w1 = (Return [], w2)) /\
    rngs w2 = rngs w1.
Proof.
  intros Hle Hseed.
  destruct (integers_valid size lower upper seed w Hseed)
    as (r & w0 & g & _ & Hg & Hint).
  set (w1 := set_iters (iters w0 ++ [Suspended r lower upper (Z.to_nat size)]) w0)
    in Hint.
  assert (Hit : iters w1 !! length (iters w0) =
                Some (Suspended r lower upper (Z.to_nat size))).
  { simpl. by apply list_lookup_middle. }
  exists (length (iters w0)), w1. split; [done|]. cbv zeta.
  split; [|split; [|done]].
  - intros Hpos.
    destruct (Z.to_nat size) as [|k] eqn:Hk; [lia|].
    pose proof (next_empty_range _ r lower upper k g w1 Hit Hg Hle) as Hnext.
    split; [done|]. split; [|done].
    unfold tuple, remaining_items. rewrite Hit. cbn [collect].
    by rewrite Hnext.
  - intros Hnone.
    replace (Z.to_nat size) with 0%nat in Hit by lia.
    pose proof (next_exhausted _ r lower upper w1 Hit) as Hnext.
    split; [done|].
    unfold tuple, remaining_items. rewrite Hit. cbn [collect].
    by rewrite Hnext.
Qed.

End Properties.

(** * The reference generator meets the laws *)

Lemma refgen_output_range s : 0 <= RefGen.output (RefGen.step s) < 2 ^ 31.
Proof.
  unfold RefGen.output, RefGen.step. cbn [RefGen.word].
  set (a := 6364136223846793005 * RefGen.word s + 1442695040888963407).
  pose proof (Z.mod_pos_bound a (2 ^ 64) ltac:(lia)) as Hw.
  split.
  - apply Z.div_pos; lia.
  - apply Z.div_lt_upper_bound; lia.
Qed.

Lemma refgen_random_unit s :
  (0 <= (RefGen.random s).1)%Q /\ ((RefGen.random s).1 < 1)%Q.
Proof.
  pose proof (refgen_output_range s) as Ho.
  unfold RefGen.random, Qle, Qlt. cbn [fst Qnum Qden]. lia.
Qed.

Lemma refgen_choices_loop n k s :
  (0 < n)%nat ->
  length (RefGen.choices_loop n k s).1 = k /\
  Forall (fun j => (j < n)%nat) (RefGen.choices_loop n k s).1.
Proof.
  intros Hn. revert s. induction k as [|k IH]; intros s.
  - split; [done|constructor].
  - cbn [RefGen.choices_loop].
    destruct (IH (RefGen.step s)) as [Hlen Hall].
    destruct (RefGen.choices_loop n k (RefGen.step s)) as [js s2].
    cbn [fst] in *. split; [simpl; lia|].
    constructor; [|done].
    pose proof (refgen_output_range s) as Ho.
    assert (RefGen.output (RefGen.step s) * Z.of_nat n / 2 ^ 31 < Z.of_nat n).
    { apply Z.div_lt_upper_bound; nia. }
    assert (0 <= RefGen.output (RefGen.step s) * Z.of_nat n / 2 ^ 31).
    { apply Z.div_pos; nia. }
    lia.
Qed.

(** One step of the pool algorithm: taking the entry at [j] and moving the
    last entry into its place leaves the rest of the pool. *)
Lemma refgen_pool_step (pool : list nat) j x y :
  pool !! j = Some x -> pool !! (length pool - 1)%nat = Some y ->
  pool ≡ₚ x :: take (length pool - 1) (<[j := y]> pool).
Proof.
  intros Hj Hlast.
  destruct (exists_last (l := pool)) as (init & y' & ->).
  { intros ->. discriminate. }
  rewrite length_app in *. cbn [length] in *.
  replace (length init + 1 - 1)%nat with (length init) in * by lia.
  rewrite list_lookup_middle in Hlast by done. injection Hlast as ->.
  destruct (decide (j = length init)) as [->|Hne].
  - rewrite list_lookup_middle in Hj by done. injection Hj as ->.
    rewrite list_insert_id by (by apply list_lookup_middle).
    rewrite take_app_length. symmetry. apply Permutation_cons_append.
  - assert (Hlt : (j < length init)%nat).
    { apply lookup_lt_Some in Hj. rewrite length_app in Hj. simpl in Hj. lia. }
    rewrite lookup_app_l in Hj by done.
    rewrite insert_app_l by done.
    rewrite take_app_length' by (by rewrite length_insert).
    rewrite insert_take_drop by done.
    rewrite <- (take_drop_middle init j x Hj) at 1.
    rewrite <- Permutation_cons_append, <- !Permutation_middle.
    apply perm_swap.
Qed.

Lemma refgen_sample_loop k :
  forall pool s, NoDup pool -> (k <= length pool)%nat ->
    length (RefGen.sample_loop pool k s).1 = k /\
    NoDup (RefGen.sample_loop pool k s).1 /\
    (forall j, j ∈ (RefGen.sample_loop pool k s).1 -> j ∈ pool).
Proof.
  induction k as [|k IH]; intros pool s Hnd Hk.
  - repeat split; [constructor|]. intros j Hj. by apply elem_of_nil in Hj.
  - cbn [RefGen.sample_loop]. unfold RefGen.randbelow.
    set (s1 := RefGen.step s).
    set (j := Z.to_nat (RefGen.output s1 mod Z.of_nat (length pool))).
    assert (Hj : (j < length pool)%nat).
    { pose proof (Z.mod_pos_bound (RefGen.output s1) (Z.of_nat (length pool))
                    ltac:(lia)). lia. }
    destruct (lookup_lt_is_Some_2 pool j Hj) as [x Hx].
    destruct (lookup_lt_is_Some_2 pool (length pool - 1)) as [y Hy]; [lia|].
    rewrite Hx, Hy.
    pose proof (refgen_pool_step pool j x y Hx Hy) as Hperm.
    set (pool' := take (length pool - 1) (<[j := y]> pool)) in *.
    assert (Hnd' : NoDup (x :: pool')) by (by rewrite <- Hperm).
    apply NoDup_cons in Hnd' as [Hx' Hnd'].
    assert (Hlen' : length pool = S (length pool')).
    { by rewrite Hperm at 1. }
    destruct (IH pool' s1 Hnd' ltac:(lia)) as (Hlen & Hjs & Hsub).
    destruct (RefGen.sample_loop pool' k s1) as [js s2]. cbn [fst] in *.
    split; [simpl; lia|]. split.
    + apply NoDup_cons. split; [|done]. intros Hin. by apply Hx', Hsub.
    + intros i Hi. rewrite Hperm. apply elem_of_cons in Hi as [->|Hi].
      * apply elem_of_cons. by left.
      * apply elem_of_cons. right. by apply Hsub.
Qed.

Lemma refgen_laws : RandomLaws RefGen.state.
Proof.
  split.
  - exact refgen_random_unit.
  - intros lower upper s Hlt. cbn. unfold RefGen.randrange.
    destruct (Z.ltb_spec 0 (upper - lower)) as [_|?]; [|lia].
    cbn. eexists. split; [reflexivity|].
    pose proof (Z.mod_pos_bound (RefGen.output (RefGen.step s)) (upper - lower)
                  ltac:(lia)). lia.
  - intros lower upper s Hle. cbn. unfold RefGen.randrange.
    by destruct (Z.ltb_spec 0 (upper - lower)) as [?|_]; [lia|].
  - intros n k s Hn Hk. cbn. unfold RefGen.choices.
    destruct (Z.leb_spec k ssize_max) as [_|?]; [|lia].
    destruct (refgen_choices_loop n (Z.to_nat k) s Hn) as [Hlen Hall].
    destruct (RefGen.choices_loop n (Z.to_nat k) s) as [js s1].
    cbn [fst] in *. by exists js.
  - intros n k s Hk. cbn. unfold RefGen.choices.
    by destruct (Z.leb_spec k ssize_max) as [?|_]; [lia|].
  - intros n k s Hk. cbn. unfold RefGen.sample.
    destruct (Z.leb_spec 0 k) as [_|?]; [|lia].
    destruct (Z.leb_spec k (Z.of_nat n)) as [_|?]; [|lia]. cbn [andb].
    destruct (refgen_sample_loop (Z.to_nat k) (seq 0 n) s)
      as (Hlen & Hnd & Hsub); [apply NoDup_seq | rewrite length_seq; lia |].
    destruct (RefGen.sample_loop (seq 0 n) (Z.to_nat k) s) as [js s1].
    cbn [fst] in *. exists js. repeat split; try done.
    apply Forall_forall. intros j Hj. apply Hsub, elem_of_seq in Hj. lia.
  - intros n k s Hk. cbn. unfold RefGen.sample.
    destruct (Z.leb_spec 0 k) as [?|_]; [|done].
    by destruct (Z.leb_spec k (Z.of_nat n)) as [?|_]; [lia|].
Qed.

#[global] Existing Instance refgen_laws.

(** * The theorems at concrete inputs, on the reference generator *)

(** [draw(["a", "b", "c"], replace=False, size=2, seed=101)]. *)
Lemma draw_without_replacement_witness :
  exists res w' ys js,
    draw 0%nat false 2 (PyInt 101) (RefGen.store string ["a"; "b"; "c"])
      = (Return res, w') /\
    lists w' !! res = Some ys /\
    Z.of_nat (length ys) = 2 /\
    NoDup js /\ drawn_at ["a"; "b"; "c"] js ys /\
    (forall y, y ∈ ys -> y ∈ ["a"; "b"; "c"]) /\
    (NoDup ["a"; "b"; "c"] -> NoDup ys) /\
    lists (RefGen.store string ["a"; "b"; "c"]) !! res = None /\
    res <> 0%nat /\
    lists_untouched (RefGen.store string ["a"; "b"; "c"]) w'.
Proof.
  apply (draw_without_replacement (laws := refgen_laws)
           0%nat ["a"; "b"; "c"] 2 (PyInt 101)
           (RefGen.store string ["a"; "b"; "c"])).
  - reflexivity.
  - discriminate.
  - simpl. lia.
  - exact I.
Defined.

(** C1 as stated fails when [items] holds an element twice:
    [draw(["a", "a"], replace=False, size=2, seed=101)] is [["a", "a"]],
    two elements that are not distinct. *)
Lemma draw_without_replacement_repeats :
  exists res w',
    draw 0%nat false 2 (PyInt 101) (RefGen.store string ["a"; "a"])
      = (Return res, w') /\
    lists w' !! res = Some ["a"; "a"] /\
    ~ NoDup ["a"; "a"].
Proof.
  eexists _, _. split; [vm_compute; reflexivity|]. split; [reflexivity|].
  intros Hnd. apply NoDup_cons in Hnd as [Hnotin _].
  apply Hnotin, elem_of_cons. by left.
Qed.

(** [draw(["a", "b"], replace, size=-1)] and
    [draw(["a", "b"], replace=False, size=3)]. *)
Lemma draw_invalid_size_witness :
  (exists r w1 e,
     get_rng PyNone (RefGen.store string ["a"; "b"]) = (Return r, w1) /\
     draw 0%nat true (-1) PyNone (RefGen.store string ["a"; "b"]) = (Raise e, w1) /\
     kind_of e = Some InvalidSize) /\
  (exists r w1 e,
     get_rng (PyInt 7) (RefGen.store string ["a"; "b"]) = (Return r, w1) /\
     draw 0%nat false 3 (PyInt 7) (RefGen.store string ["a"; "b"]) = (Raise e, w1) /\
     kind_of e = Some InvalidSize).
Proof.
  split.
  - apply (draw_invalid_size (laws := refgen_laws)
             0%nat true (-1) PyNone (RefGen.store string ["a"; "b"])).
    + exact I.
    + left. lia.
  - apply (draw_invalid_size (laws := refgen_laws)
             0%nat false 3 (PyInt 7) (RefGen.store string ["a"; "b"])).
    + exact I.
    + right. split; [reflexivity|]. exists ["a"; "b"].
      split; [reflexivity|]. split; [discriminate|]. simpl. lia.
Defined.

(** [draw([1, 2, 3], replace=True, size=0, seed=101)]. *)
Lemma draw_short_circuit_witness :
  exists r w1 res w',
    get_rng (PyInt 101) (RefGen.store Z [1; 2; 3]) = (Return r, w1) /\
    draw 0%nat true 0 (PyInt 101) (RefGen.store Z [1; 2; 3]) = (Return res, w') /\
    lists w' !! res = Some [] /\
    rngs w' = rngs w1 /\
    rngs_untouched (RefGen.store Z [1; 2; 3]) w' /\
    lists (RefGen.store Z [1; 2; 3]) !! res = None /\ res <> 0%nat /\
    lists_untouched (RefGen.store Z [1; 2; 3]) w'.
Proof.
  apply (draw_short_circuit
           0%nat [1; 2; 3] true 0 (PyInt 101) (RefGen.store Z [1; 2; 3])).
  - reflexivity.
  - exact I.
  - lia.
  - right. reflexivity.
Defined.

(** C5 as stated fails when [items] is empty and [size] is negative:
    [draw([], replace=True, size=-1)] raises instead of returning an empty
    list. *)
Lemma draw_empty_negative_size_raises :
  lists (RefGen.store string []) !! 0%nat = Some [] /\
  valid_seed (RefGen.store string []) PyNone /\
  exists w',
    draw 0%nat true (-1) PyNone (RefGen.store string [])
      = (Raise (ValueError NegativeSize), w').
Proof.
  split; [reflexivity|]. split; [exact I|].
  eexists. vm_compute. reflexivity.
Qed.

(** [shuffle([10, 20, 30], seed=101)]. *)
Lemma shuffle_permutation_witness :
  exists res w' ys,
    shuffle 0%nat (PyInt 101) (RefGen.store Z [10; 20; 30]) = (Return res, w') /\
    lists w' !! res = Some ys /\
    ys ≡ₚ [10; 20; 30] /\ length ys = 3%nat /\
    lists (RefGen.store Z [10; 20; 30]) !! res = None /\ res <> 0%nat /\
    lists_untouched (RefGen.store Z [10; 20; 30]) w' /\
    shuffle 0%nat (PyInt 101) (RefGen.store Z [10; 20; 30]) =
      draw 0%nat false 3 (PyInt 101) (RefGen.store Z [10; 20; 30]).
Proof.
  apply (shuffle_permutation (laws := refgen_laws)
           0%nat [10; 20; 30] (PyInt 101) (RefGen.store Z [10; 20; 30])).
  - reflexivity.
  - exact I.
Defined.

(** [coinflip(0.25, seed=101)] and [coinflip(1.1, seed=101)]. *)
Lemma coinflip_spec_witness :
  (exists r w1 g b,
     get_rng (PyInt 101) (RefGen.store Z []) = (Return r, w1) /\
     rngs w1 !! r = Some g /\
     coinflip (Finite (1 # 4)) (PyInt 101) (RefGen.store Z []) =
       (Return b, set_rngs (<[r := (rnd_random g).2]> (rngs w1)) w1) /\
     (0 <= (rnd_random g).1)%Q /\ ((rnd_random g).1 < 1)%Q /\
     (b = true <-> ((rnd_random g).1 < 1 # 4)%Q) /\
     (1 # 4 == 0 -> b = false)%Q /\ (1 # 4 == 1 -> b = true)%Q) /\
  coinflip (Finite (11 # 10)) (PyInt 101) (RefGen.store Z []) =
    (Raise (ValueError BiasOutOfRange), RefGen.store Z []).
Proof.
  pose proof (coinflip_spec (laws := refgen_laws) (T := Z)
                (PyInt 101) (RefGen.store Z [])) as [Hin Hout].
  split.
  - apply Hin; [discriminate | discriminate | exact I].
  - apply Hout. simpl. intros [_ Hle]. apply Hle. reflexivity.
Defined.

(** [tuple(integers(30, -2, 2, seed=101))]. *)
Lemma integers_in_range_witness :
  exists it w1 vs w2,
    integers 30 (-2) 2 (PyInt 101) (RefGen.store Z []) = (Return it, w1) /\
    tuple it w1 = (Return vs, w2) /\
    Z.of_nat (length vs) = 30 /\
    Forall (fun v => -2 <= v < 2) vs /\
    tuple it w2 = (Return [], w2).
Proof.
  apply (integers_in_range (laws := refgen_laws) (T := Z)
           30 (-2) 2 (PyInt 101) (RefGen.store Z [])).
  - lia.
  - lia.
  - exact I.
Defined.

(** [integers(1, 100, 10)]: built without error, raises on the first
    [next]. *)
Lemma integers_empty_range_witness :
  exists it w1,
    integers 1 100 10 PyNone (RefGen.store Z []) = (Return it, w1) /\
    let w2 := set_iters (<[it := Finished]> (iters w1)) w1 in
    (0 < 1 ->
       next it w1 = (Raise (ValueError EmptyRandrange), w2) /\
       tuple it w1 = (Raise (ValueError EmptyRandrange), w2) /\
       kind_of (ValueError EmptyRandrange) = Some EmptyRange) /\
    (1 <= 0 ->
       next it w1 = (Raise StopIteration, w2) /\
       tuple it w1 = (Return [], w2)) /\
    rngs w2 = rngs w1.
Proof.
  apply (integers_empty_range (laws := refgen_laws) (T := Z)
           1 100 10 PyNone (RefGen.store Z [])).
  - lia.
  - exact I.
Defined.

(** [integers(0, 0, 1, seed="invalid seed")] and
    [draw(["a"], True, -1, seed=3.0)]. *)
Lemma foreign_seed_raises_first_witness :
  (integers 0 0 1 (PyStr "invalid seed") (RefGen.store string ["a"]) =
     (Raise (ValueError BadSeed), RefGen.store string ["a"]) /\
   draw 0%nat true 0 (PyStr "invalid seed") (RefGen.store string ["a"]) =
     (Raise (ValueError BadSeed), RefGen.store string ["a"]) /\
   kind_of (ValueError BadSeed) = Some InvalidSeed) /\
  (integers (-1) 0 1 (PyFloat (Finite 3)) (RefGen.store string ["a"]) =
     (Raise (ValueError BadSeed), RefGen.store string ["a"]) /\
   draw 0%nat true (-1) (PyFloat (Finite 3)) (RefGen.store string ["a"]) =
     (Raise (ValueError BadSeed), RefGen.store string ["a"]) /\
   kind_of (ValueError BadSeed) = Some InvalidSeed).
Proof.
  split.
  - apply (foreign_seed_raises_first (PyStr "invalid seed")). exact I.
  - apply (foreign_seed_raises_first (PyFloat (Finite 3))). exact I.
Defined.

(** [draw(["x", "y", "z"], replace=True, size=5, seed=101)] and the same
    with [size=2**63]. *)
Lemma draw_with_replacement_witness :
  (exists res w' ys js,
     draw 0%nat true 5 (PyInt 101) (RefGen.store string ["x"; "y"; "z"])
       = (Return res, w') /\
     lists w' !! res = Some ys /\
     Z.of_nat (length ys) = 5 /\
     drawn_at ["x"; "y"; "z"] js ys /\
     (forall y, y ∈ ys -> y ∈ ["x"; "y"; "z"]) /\
     lists (RefGen.store string ["x"; "y"; "z"]) !! res = None /\
     res <> 0%nat /\
     lists_untouched (RefGen.store string ["x"; "y"; "z"]) w') /\
  (exists r w1,
     get_rng (PyInt 101) (RefGen.store string ["x"; "y"; "z"]) = (Return r, w1) /\
     draw 0%nat true (2 ^ 63) (PyInt 101) (RefGen.store string ["x"; "y"; "z"])
       = (Raise OverflowError, w1)).
Proof.
  split.
  - apply (draw_with_replacement (laws := refgen_laws)
             0%nat ["x"; "y"; "z"] 5 (PyInt 101)
             (RefGen.store string ["x"; "y"; "z"]));
      [reflexivity | discriminate | exact I | split; discriminate].
  - apply (draw_with_replacement (laws := refgen_laws)
             0%nat ["x"; "y"; "z"] (2 ^ 63) (PyInt 101)
             (RefGen.store string ["x"; "y"; "z"]));
      [reflexivity | discriminate | exact I | reflexivity].
Defined.

(** * The package's tests whose outcome no generator can change

    Cases of [tests/test_core.py] that fix the result whatever values the
    generator produces, evaluated on the reference generator. *)

(** [test_empty_items_returns_empty_list]. *)
Example test_empty_items_returns_empty_list :
  forall replace, exists res w',
    draw 0%nat replace 1 PyNone (RefGen.store Z []) = (Return res, w') /\
    lists w' !! res = Some [] /\ res <> 0%nat.
Proof.
  intros [|]; eexists _, _; (split; [vm_compute; reflexivity|]);
    split; [reflexivity|discriminate|reflexivity|discriminate].
Qed.

(** [test_size_zero_returns_empty_list]. *)
Example test_size_zero_returns_empty_list :
  forall replace, exists res w',
    draw 0%nat replace 0 PyNone (RefGen.store Z [1; 2; 3]) = (Return res, w') /\
    lists w' !! res = Some [].
Proof.
  intros [|]; eexists _, _; (split; [vm_compute; reflexivity|]); reflexivity.
Qed.

(** [test_negative_size_raises_value_error]. *)
Example test_negative_size_raises_value_error :
  forall replace, exists w',
    draw 0%nat replace (-1) PyNone (RefGen.store Z [1; 2; 3]) =
      (Raise (ValueError NegativeSize), w').
Proof. intros [|]; eexists; vm_compute; reflexivity. Qed.

(** [test_no_replacement_size_greater_than_num_items_raises]. *)
Example test_no_replacement_size_greater_than_num_items_raises :
  exists w',
    draw 0%nat false 3 PyNone (RefGen.store string ["a"; "b"]) =
      (Raise (ValueError SampleTooLarge), w').
Proof. eexists. vm_compute. reflexivity. Qed.

(** [test_get_rng]: [None], [0] and a generator are accepted, a string and
    a float are refused. *)
Example test_get_rng :
  (exists r w', get_rng PyNone (RefGen.store Z []) = (Return r, w')) /\
  (exists r w', get_rng (PyInt 0) (RefGen.store Z []) = (Return r, w')) /\
  (exists w0 r,
     get_rng (PyInt 1) (RefGen.store Z []) = (Return r, w0) /\
     get_rng (PyRandom r) w0 = (Return r, w0)) /\
  get_rng (PyStr "invalid seed") (RefGen.store Z []) =
    (Raise (ValueError BadSeed), RefGen.store Z []) /\
  get_rng (PyFloat (Finite 3)) (RefGen.store Z []) =
    (Raise (ValueError BadSeed), RefGen.store Z []).
Proof.
  repeat split; try (eexists _, _; vm_compute; reflexivity).
  eexists _, _. split; vm_compute; reflexivity.
Qed.

(** [test_integers], the two cases with an empty range. *)
Example test_integers_empty_range :
  (exists it w1 w2,
     integers 1 5 5 PyNone (RefGen.store Z []) = (Return it, w1) /\
     tuple it w1 = (Raise (ValueError EmptyRandrange), w2)) /\
  (exists it w1 w2,
     integers 1 100 10 PyNone (RefGen.store Z []) = (Return it, w1) /\
     tuple it w1 = (Raise (ValueError EmptyRandrange), w2)).
Proof.
  split; eexists _, _, _; (split; [vm_compute; reflexivity|]);
    vm_compute; reflexivity.
Qed.

(** [test_shuffle_empty_list] and [test_shuffle_single_element]. *)
Example test_shuffle_small :
  (exists res w',
     shuffle 0%nat (PyInt 101) (RefGen.store Z []) = (Return res, w') /\
     lists w' !! res = Some [] /\ res <> 0%nat) /\
  (exists res w',
     shuffle 0%nat (PyInt 101) (RefGen.store Z [42]) = (Return res, w') /\
     lists w' !! res = Some [42] /\ res <> 0%nat /\
     lists w' !! 0%nat = Some [42]).
Proof.
  split; eexists _, _; (split; [vm_compute; reflexivity|]);
    repeat split; discriminate.
Qed.

(** [test_coinflip_always_false] and [test_coinflip_always_true], one flip
    each. *)
Example test_coinflip_extremes :
  (exists w', coinflip (Finite 0) (PyInt 101) (RefGen.store Z []) =
                (Return false, w')) /\
  (exists w', coinflip (Finite 1) (PyInt 101) (RefGen.store Z []) =
                (Return true, w')).
Proof. split; eexists; vm_compute; reflexivity. Qed.

(** * Further properties of core.py *)

Section Coverage.
Context {G : Type} {ops : RandomOps G} {T : Type}.
Implicit Types (w : world G T) (seed : pyvalue) (items : nat).

(** ** What a call leaves alone *)

(** The three ways [get_rng] can go: hand back the generator passed in,
    create a generator at the next free reference, or refuse the seed. *)
Lemma get_rng_cases seed w :
  (exists r, seed = PyRandom r /\ get_rng seed w = (Return r, w)) \/
  (exists g k,
     (forall r, seed <> PyRandom r) /\
     get_rng seed w =
       (Return (length (rngs w)),
        World (rngs w ++ [g]) (lists w) (iters w) (entropy w) k)) \/
  ((forall r, seed <> PyRandom r) /\
   get_rng seed w = (Raise (ValueError BadSeed), w)).
Proof.
  destruct seed as [ |n|b|x|s|r|l].
  - right. left. eexists _, _. split; [done|]. reflexivity.
  - right. left. eexists _, _. split; [done|]. reflexivity.
  - right. left. eexists _, _. split; [done|]. reflexivity.
  - right. right. by split.
  - right. right. by split.
  - left. by exists r.
  - right. right. by split.
Qed.

Lemma touches_only_refl r w : touches_only r w w.
Proof. split; [by intros l xs|]. split; [done|]. by intros r' g _. Qed.

Lemma touches_only_new_list r (ys : list T) w w1 :
  lists w1 = lists w -> iters w1 = iters w ->
  (forall r' g, r' <> r -> rngs w !! r' = Some g -> rngs w1 !! r' = Some g) ->
  touches_only r w (set_lists (lists w1 ++ [ys]) w1).
Proof.
  intros Hls Hits Hrs. split; [|split; [done|exact Hrs]].
  intros l xs Hl. simpl. rewrite Hls. by apply lookup_app_l_Some.
Qed.

Lemma touches_only_rng r w w' :
  lists w' = lists w -> iters w' = iters w ->
  (forall r', r' <> r -> rngs w' !! r' = rngs w !! r') ->
  touches_only r w w'.
Proof.
  intros Hls Hits Hrs. split; [|split; [done|]].
  - intros l xs Hl. by rewrite Hls.
  - intros r' g Hne Hg. by rewrite Hrs.
Qed.

Lemma on_rng_inv {A} (f : G -> A * G) r w o w' :
  on_rng r f w = (o, w') ->
  lists w' = lists w /\ iters w' = iters w /\
  forall r', r' <> r -> rngs w' !! r' = rngs w !! r'.
Proof.
  unfold on_rng. destruct (rngs w !! r) as [g|]; [destruct (f g)|];
    intros [= <- <-]; repeat split; try done.
  intros r' Hne. simpl. by apply list_lookup_insert_ne.
Qed.

Lemma select_new_list_frame r (xs : list T) js w1 w2 o w' :
  lists w2 = lists w1 -> iters w2 = iters w1 ->
  (forall r', r' <> r -> rngs w2 !! r' = rngs w1 !! r') ->
  bind (select xs js) new_list w2 = (o, w') ->
  touches_only r w1 w' /\
  forall res, o = Return res -> lists w1 !! res = None /\ is_Some (lists w' !! res).
Proof.
  intros Hls Hits Hrs. unfold bind, select.
  destruct (mapM (fun j => xs !! j) js) as [ys|]; intros [= <- <-].
  - split.
    + apply touches_only_new_list; [done..|].
      intros r' g Hne Hg. by rewrite Hrs.
    + intros res [= <-]. rewrite Hls. split; [by apply lookup_ge_None_2|].
      simpl. eexists. by apply list_lookup_middle.
  - split; [by apply touches_only_rng|discriminate].
Qed.

Lemma draw_resolved_frame r items (replace : bool) size (w1 w' : world G T) o :
  (if size <? 0 then raise (ValueError NegativeSize)
   else bind (len items) (fun n =>
     if (n =? 0)%nat || (size =? 0) then new_list []
     else if replace then call_choices r items size
     else call_sample r items size)) w1 = (o, w') ->
  touches_only r w1 w' /\
  forall res, o = Return res -> lists w1 !! res = None /\ is_Some (lists w' !! res).
Proof.
  destruct (size <? 0).
  { intros [= <- <-]. split; [apply touches_only_refl|discriminate]. }
  unfold bind at 1, len. destruct (lists w1 !! items) as [xs|] eqn:Hl.
  2: { intros [= <- <-]. split; [apply touches_only_refl|discriminate]. }
  destruct ((length xs =? 0)%nat || (size =? 0)).
  { intros [= <- <-]. split.
    - by apply touches_only_new_list.
    - intros res [= <-]. split; [by apply lookup_ge_None_2|].
      simpl. eexists. by apply list_lookup_middle. }
  destruct replace.
  - unfold call_choices, bind at 1, read_list. rewrite Hl.
    unfold bind at 1.
    destruct (on_rng r (rnd_choices (length xs) size) w1) as [[[js|]|e|] w2] eqn:Hon;
      apply on_rng_inv in Hon as (Hls & Hits & Hrs).
    + by apply select_new_list_frame.
    + intros [= <- <-]. split; [by apply touches_only_rng|discriminate].
    + intros [= <- <-]. split; [by apply touches_only_rng|discriminate].
    + intros [= <- <-]. split; [by apply touches_only_rng|discriminate].
  - unfold call_sample, bind at 1, read_list. rewrite Hl.
    unfold bind at 1.
    destruct (on_rng r (rnd_sample (length xs) size) w1) as [[[js|]|e|] w2] eqn:Hon;
      apply on_rng_inv in Hon as (Hls & Hits & Hrs).
    + by apply select_new_list_frame.
    + intros [= <- <-]. split; [by apply touches_only_rng|discriminate].
    + intros [= <- <-]. split; [by apply touches_only_rng|discriminate].
    + intros [= <- <-]. split; [by apply touches_only_rng|discriminate].
Qed.

(** [draw] reads its input and writes only what is its own.  Whatever the
    arguments and whatever the outcome (a list, an exception): every list
    that existed, [items] included, keeps its contents; no iterator is
    touched; every generator other than one passed in as [seed] keeps its
    state; and a reference it returns is to a list that did not exist
    before the call. *)
Theorem draw_frame items replace size seed w :
  lists_untouched w (draw items replace size seed w).2 /\
  iters (draw items replace size seed w).2 = iters w /\
  (forall r g, seed <> PyRandom r -> rngs w !! r = Some g ->
     rngs (draw items replace size seed w).2 !! r = Some g) /\
  (forall res, (draw items replace size seed w).1 = Return res ->
     lists w !! res = None /\
     is_Some (lists (draw items replace size seed w).2 !! res)).
Proof.
  destruct (get_rng_cases seed w) as [(r & -> & Hget) | [(g0 & k & Hne & Hget) | [Hne Hget]]].
  - rewrite (draw_resolved _ _ _ _ _ _ _ Hget).
    match goal with |- context [?body w] => destruct (body w) as [o w'] eqn:Hbody end.
    apply (draw_resolved_frame r) in Hbody as [(Hls & Hits & Hrs) Hres].
    cbn [fst snd]. repeat split; try done.
    + intros r' g Hseed Hg. apply Hrs; [|done]. intros ->. by apply Hseed.
    + by apply Hres.
    + by apply Hres.
  - rewrite (draw_resolved _ _ _ _ _ _ _ Hget).
    match goal with |- context [?body ?w1] =>
      match w1 with World _ _ _ _ _ =>
        destruct (body w1) as [o w'] eqn:Hbody end end.
    apply (draw_resolved_frame (length (rngs w))) in Hbody
      as [(Hls & Hits & Hrs) Hres].
    cbn [fst snd]. repeat split; try done.
    + intros r g _ Hg. apply Hrs.
      * apply lookup_lt_Some in Hg. lia.
      * simpl. by apply lookup_app_l_Some.
    + by apply Hres.
    + by apply Hres.
  - unfold draw, bind. rewrite Hget. cbn [fst snd].
    split; [by intros l xs|]. by repeat split.
Qed.

(** ** Calls with an integer seed *)

Lemma returned_select (xs : list T) js w2 :
  returned_list (bind (select xs js) new_list w2) =
    match mapM (fun j => xs !! j) js with
    | Some ys => Return ys
    | None => Raise IndexError
    end.
Proof.
  unfold bind, select.
  destruct (mapM (fun j => xs !! j) js) as [ys|]; [|done].
  cbn. by rewrite list_lookup_middle.
Qed.

Lemma call_choices_returned r items (xs : list T) k g w :
  lists w !! items = Some xs -> rngs w !! r = Some g ->
  returned_list (call_choices r items k w) =
    match (rnd_choices (length xs) k g).1 with
    | Some js =>
        match mapM (fun j => xs !! j) js with
        | Some ys => Return ys
        | None => Raise IndexError
        end
    | None => Raise OverflowError
    end.
Proof.
  intros Hl Hr. unfold call_choices, bind at 1.
  rewrite (read_list_Some items xs w Hl). unfold bind at 1.
  rewrite (on_rng_Some _ r g w Hr).
  destruct (rnd_choices (length xs) k g).1 as [js|]; [|done].
  apply returned_select.
Qed.

Lemma call_sample_returned r items (xs : list T) k g w :
  lists w !! items = Some xs -> rngs w !! r = Some g ->
  returned_list (call_sample r items k w) =
    match (rnd_sample (length xs) k g).1 with
    | Some js =>
        match mapM (fun j => xs !! j) js with
        | Some ys => Return ys
        | None => Raise IndexError
        end
    | None => Raise (ValueError SampleTooLarge)
    end.
Proof.
  intros Hl Hr. unfold call_sample, bind at 1.
  rewrite (read_list_Some items xs w Hl). unfold bind at 1.
  rewrite (on_rng_Some _ r g w Hr).
  destruct (rnd_sample (length xs) k g).1 as [js|]; [|done].
  apply returned_select.
Qed.

(** What [draw] returns under an integer seed, read off the contents of
    [items] and the freshly seeded generator. *)
Lemma draw_seeded_returned items (xs : list T) (replace : bool) size s w :
  lists w !! items = Some xs ->
  returned_list (draw items replace size (PyInt s) w) =
    if size <? 0 then Raise (ValueError NegativeSize)
    else if (length xs =? 0)%nat || (size =? 0) then Return []
    else if replace then
      match (rnd_choices (length xs) size (rnd_init s)).1 with
      | Some js =>
          match mapM (fun j => xs !! j) js with
          | Some ys => Return ys
          | None => Raise IndexError
          end
      | None => Raise OverflowError
      end
    else
      match (rnd_sample (length xs) size (rnd_init s)).1 with
      | Some js =>
          match mapM (fun j => xs !! j) js with
          | Some ys => Return ys
          | None => Raise IndexError
          end
      | None => Raise (ValueError SampleTooLarge)
      end.
Proof.
  intros Hl.
  rewrite (draw_resolved items replace size (PyInt s) w _ _ eq_refl).
  set (w1 := set_rngs (rngs w ++ [rnd_init s]) w).
  assert (Hl1 : lists w1 !! items = Some xs) by done.
  assert (Hr1 : rngs w1 !! length (rngs w) = Some (rnd_init s)).
  { simpl. by apply list_lookup_middle. }
  destruct (size <? 0); [done|].
  unfold bind. rewrite (len_Some items xs w1 Hl1).
  destruct ((length xs =? 0)%nat || (size =? 0)).
  { cbn. by rewrite list_lookup_middle. }
  destruct replace.
  - by apply call_choices_returned.
  - by apply call_sample_returned.
Qed.

(** Under an integer seed the list [draw] returns, or the exception it
    raises, depends on the contents of [items], [replace], [size] and the
    seed only: not on where the list lives, on the other objects of the
    store, or on the generators that exist. *)
Theorem draw_seeded_reproducible items items' (xs : list T) replace size s w w' :
  lists w !! items = Some xs -> lists w' !! items' = Some xs ->
  returned_list (draw items replace size (PyInt s) w) =
  returned_list (draw items' replace size (PyInt s) w').
Proof.
  intros Hl Hl'.
  by rewrite (draw_seeded_returned items xs replace size s w Hl),
             (draw_seeded_returned items' xs replace size s w' Hl').
Qed.

(** The same for [shuffle]: the order it produces is fixed by the contents
    of [items] and the integer seed. *)
Theorem shuffle_seeded_reproducible items items' (xs : list T) s w w' :
  lists w !! items = Some xs -> lists w' !! items' = Some xs ->
  returned_list (shuffle items (PyInt s) w) =
  returned_list (shuffle items' (PyInt s) w').
Proof.
  intros Hl Hl'. unfold shuffle, bind.
  rewrite (len_Some items xs w Hl), (len_Some items' xs w' Hl').
  by rewrite (draw_seeded_returned items xs false _ s w Hl),
             (draw_seeded_returned items' xs false _ s w' Hl').
Qed.

(** ** [coinflip] *)

(** [coinflip] checks [bias] before it looks at the seed, but once the
    bias is accepted a seed that is neither absent, an integer nor a
    generator is refused, and nothing has been created or drawn. *)
Theorem coinflip_foreign_seed bias seed w :
  in_unit_interval bias -> foreign_seed seed ->
  coinflip bias seed w = (Raise (ValueError BadSeed), w).
Proof.
  intros Hbias Hseed. unfold coinflip.
  apply unit_interval_check in Hbias. rewrite Hbias. cbn [negb].
  unfold bind. by rewrite (get_rng_foreign seed w Hseed).
Qed.

(** Two flips on the same generator object: the second flip is decided by
    the draw that follows the first one's, and the object ends up two
    draws ahead; nothing else in the store changes. *)
Theorem coinflip_shared_generator q1 q2 r g w :
  in_unit_interval (Finite q1) -> in_unit_interval (Finite q2) ->
  rngs w !! r = Some g ->
  exists w1 w2,
    coinflip (Finite q1) (PyRandom r) w =
      (Return (float_lt (Finite (rnd_random g).1) (Finite q1)), w1) /\
    coinflip (Finite q2) (PyRandom r) w1 =
      (Return (float_lt (Finite (rnd_random (rnd_random g).2).1) (Finite q2)), w2) /\
    rngs w2 !! r = Some (rnd_random (rnd_random g).2).2 /\
    touches_only r w w2.
Proof.
  intros Hq1 Hq2 Hg.
  apply unit_interval_check in Hq1, Hq2.
  set (g1 := (rnd_random g).2).
  set (w1 := set_rngs (<[r := g1]> (rngs w)) w).
  assert (Hlt : (r < length (rngs w))%nat) by (by apply lookup_lt_Some in Hg).
  assert (Hg1 : rngs w1 !! r = Some g1).
  { simpl. by apply list_lookup_insert_eq. }
  exists w1, (set_rngs (<[r := (rnd_random g1).2]> (rngs w1)) w1).
  split; [|split; [|split]].
  - unfold coinflip. rewrite Hq1. cbn [negb]. unfold bind, call_random.
    cbn [get_rng ret]. by rewrite (on_rng_Some rnd_random r g w Hg).
  - unfold coinflip. rewrite Hq2. cbn [negb]. unfold bind, call_random.
    cbn [get_rng ret]. by rewrite (on_rng_Some rnd_random r g1 w1 Hg1).
  - simpl. apply list_lookup_insert_eq. by rewrite length_insert.
  - apply touches_only_rng; [done..|].
    intros r' Hne. simpl. by rewrite !list_lookup_insert_ne.
Qed.

(** From the same store and seed, a flip that comes out true stays true
    under any larger bias. *)
Theorem coinflip_monotone q1 q2 seed w :
  (0 <= q1)%Q -> (q1 <= q2)%Q -> (q2 <= 1)%Q ->
  (coinflip (Finite q1) seed w).1 = Return true ->
  (coinflip (Finite q2) seed w).1 = Return true.
Proof.
  intros H0 H12 H1.
  assert (Hq1 : in_unit_interval (Finite q1)).
  { split; [done|]. by apply Qle_trans with q2. }
  assert (Hq2 : in_unit_interval (Finite q2)).
  { split; [|done]. by apply Qle_trans with q1. }
  apply unit_interval_check in Hq1, Hq2.
  unfold coinflip. rewrite Hq1, Hq2. cbn [negb]. unfold bind.
  destruct (get_rng seed w) as [[r|e|] w0]; [|done..].
  unfold call_random, on_rng.
  destruct (rngs w0 !! r) as [g|]; [|done].
  destruct (rnd_random g) as [x g']. cbn [fst ret].
  intros [= Hlt]. f_equal. apply float_lt_finite.
  apply float_lt_finite in Hlt. by apply Qlt_le_trans with q1.
Qed.

(** Under an integer seed the outcome of [coinflip] is the same in every
    store: for a bias in [0, 1] it is whether the first draw of the newly
    seeded generator is below the bias. *)
Theorem coinflip_seeded_reproducible bias s w w' :
  (coinflip bias (PyInt s) w).1 = (coinflip bias (PyInt s) w').1 /\
  (in_unit_interval bias ->
   (coinflip bias (PyInt s) w).1 =
     Return (float_lt (Finite (rnd_random (rnd_init s)).1) bias)).
Proof.
  assert (Hval : forall w0 : world G T,
            float_le (Finite 0) bias && float_le bias (Finite 1) = true ->
            (coinflip bias (PyInt s) w0).1 =
              Return (float_lt (Finite (rnd_random (rnd_init s)).1) bias)).
  { intros w0 Hchk. unfold coinflip. rewrite Hchk. cbn [negb].
    unfold bind, call_random. cbn [get_rng new_Random].
    rewrite (on_rng_Some rnd_random (length (rngs w0)) (rnd_init s)); [done|].
    simpl. by apply list_lookup_middle. }
  split.
  - destruct (float_le (Finite 0) bias && float_le bias (Finite 1)) eqn:Hchk.
    + by rewrite !Hval.
    + unfold coinflip. by rewrite Hchk.
  - intros Hbias. apply Hval. by apply unit_interval_check.
Qed.

(** ** [integers] *)

Lemma next_value it r lower upper n g v w :
  iters w !! it = Some (Suspended r lower upper (S n)) ->
  rngs w !! r = Some g ->
  (rnd_randrange lower upper g).1 = Some v ->
  next it w =
    (Return v,
     set_iters (<[it := Suspended r lower upper n]> (iters w))
       (set_rngs (<[r := (rnd_randrange lower upper g).2]> (rngs w)) w)).
Proof.
  intros Hit Hr Hv. unfold next. rewrite Hit. unfold call_randrange, bind.
  by rewrite (on_rng_Some _ r g w Hr), Hv.
Qed.

Lemma next_raises it r lower upper n g w :
  iters w !! it = Some (Suspended r lower upper (S n)) ->
  rngs w !! r = Some g ->
  (rnd_randrange lower upper g).1 = None ->
  next it w =
    (Raise (ValueError EmptyRandrange),
     set_iters (<[it := Finished]> (iters w))
       (set_rngs (<[r := (rnd_randrange lower upper g).2]> (rngs w)) w)).
Proof.
  intros Hit Hr Hv. unfold next. rewrite Hit. unfold call_randrange, bind.
  by rewrite (on_rng_Some _ r g w Hr), Hv.
Qed.

Lemma collect_unfold b it w :
  collect (S b) it w =
    match next it w with
    | (Return v, w1) =>
        match collect b it w1 with
        | (Return vs, w2) => (Return (v :: vs), w2)
        | other => other
        end
    | (Raise StopIteration, w1) => (Return [], w1)
    | (Raise e, w1) => (Raise e, w1)
    | (Wrong, w1) => (Wrong, w1)
    end.
Proof. reflexivity. Qed.

(** Two iterators with the same bounds and the same number of items left,
    over generators in the same state, yield the same. *)
Lemma collect_agree lower upper b :
  forall n g it r w it' r' (w' : world G T),
    iters w !! it = Some (Suspended r lower upper n) ->
    rngs w !! r = Some g ->
    iters w' !! it' = Some (Suspended r' lower upper n) ->
    rngs w' !! r' = Some g ->
    (collect b it w).1 = (collect b it' w').1.
Proof.
  induction b as [|b IH]; intros n g it r w it' r' w' Hit Hr Hit' Hr'; [done|].
  rewrite !collect_unfold.
  destruct n as [|n].
  { by rewrite (next_exhausted it r lower upper w Hit),
               (next_exhausted it' r' lower upper w' Hit'). }
  destruct (rnd_randrange lower upper g).1 as [v|] eqn:Hv.
  - rewrite (next_value it r lower upper n g v w Hit Hr Hv),
            (next_value it' r' lower upper n g v w' Hit' Hr' Hv).
    set (a := set_iters (<[it := Suspended r lower upper n]> (iters w))
                (set_rngs (<[r := (rnd_randrange lower upper g).2]> (rngs w)) w)).
    set (a' := set_iters (<[it' := Suspended r' lower upper n]> (iters w'))
                 (set_rngs (<[r' := (rnd_randrange lower upper g).2]> (rngs w')) w')).
    assert (Heq : (collect b it a).1 = (collect b it' a').1).
    { apply (IH n (rnd_randrange lower upper g).2 it r a it' r' a');
        simpl; apply list_lookup_insert_eq.
      - by apply lookup_lt_Some in Hit.
      - by apply lookup_lt_Some in Hr.
      - by apply lookup_lt_Some in Hit'.
      - by apply lookup_lt_Some in Hr'. }
    destruct (collect b it a) as [[vs|e|] w2],
             (collect b it' a') as [[vs'|e'|] w2'];
      cbn [fst] in *;
      congruence.
  - by rewrite (next_raises it r lower upper n g w Hit Hr Hv),
               (next_raises it' r' lower upper n g w' Hit' Hr' Hv).
Qed.

(** Under an integer seed [integers] yields the same sequence, or fails
    at the same point, in every store. *)
Theorem integers_seeded_reproducible size lower upper s w w' :
  exists it w1 it' w1',
    integers size lower upper (PyInt s) w = (Return it, w1) /\
    integers size lower upper (PyInt s) w' = (Return it', w1') /\
    (tuple it w1).1 = (tuple it' w1').1.
Proof.
  eexists _, _, _, _. split; [reflexivity|]. split; [reflexivity|].
  unfold tuple, remaining_items. cbn [iters set_iters set_rngs].
  rewrite !list_lookup_middle by reflexivity.
  eapply (collect_agree lower upper); simpl.
  - by apply list_lookup_middle.
  - by apply list_lookup_middle.
  - by apply list_lookup_middle.
  - by apply list_lookup_middle.
Qed.

(** [integers] does not validate [size]: with [size <= 0], negative sizes
    included, and a valid seed it returns an iterator that yields nothing,
    whatever the bounds, and consuming it draws from no generator. *)
Theorem integers_nonpositive_size size lower upper seed w :
  size <= 0 -> valid_seed w seed ->
  exists it w1 w2,
    integers size lower upper seed w = (Return it, w1) /\
    tuple it w1 = (Return [], w2) /\
    rngs w2 = rngs w1 /\ lists w2 = lists w1.
Proof.
  intros Hsize Hseed.
  destruct (integers_valid size lower upper seed w Hseed)
    as (r & w0 & g & _ & _ & Hint).
  replace (Z.to_nat size) with 0%nat in Hint by lia.
  eexists _, _, _. split; [exact Hint|].
  unfold tuple, remaining_items. cbn [iters set_iters].
  rewrite list_lookup_middle by reflexivity. cbn [collect].
  rewrite (next_exhausted _ r lower upper); [done|].
  simpl. by apply list_lookup_middle.
Qed.

(** ** [get_rng] *)

(** For an absent or integer seed [get_rng] never hands out a generator
    that already exists: the reference it returns was free before the
    call, and the generators, lists and iterators that existed are as they
    were. *)
Theorem get_rng_fresh seed w :
  valid_seed w seed -> (forall r, seed <> PyRandom r) ->
  exists r w1,
    get_rng seed w = (Return r, w1) /\
    rngs w !! r = None /\ is_Some (rngs w1 !! r) /\
    rngs_untouched w w1 /\ lists w1 = lists w /\ iters w1 = iters w.
Proof.
  intros Hseed Hnew.
  destruct (get_rng_cases seed w)
    as [(r & -> & _) | [(g0 & k & _ & Hget) | [_ Hget]]].
  - by destruct (Hnew r).
  - eexists _, _. split; [exact Hget|]. cbn [rngs lists iters].
    split; [by apply lookup_ge_None_2|].
    split; [eexists; by apply list_lookup_middle|].
    split; [|done]. intros r g Hr. simpl. by apply lookup_app_l_Some.
  - by destruct seed.
Qed.

(** ** With the laws of [random.Random] *)

Context {laws : RandomLaws G}.

(** Consuming an iterator over a non-empty range calls [randrange] once
    per item on the captured generator and on nothing else. *)
Lemma collect_advances it r lower upper :
  lower < upper ->
  forall k w g,
    iters w !! it = Some (Suspended r lower upper k) ->
    rngs w !! r = Some g ->
    exists vs w',
      collect (S k) it w = (Return vs, w') /\
      length vs = k /\
      rngs w' !! r = Some (after_randranges lower upper k g) /\
      (forall r', r' <> r -> rngs w' !! r' = rngs w !! r') /\
      lists w' = lists w.
Proof.
  intros Hlt. induction k as [|k IH]; intros w g Hit Hg.
  - eexists [], _. rewrite collect_unfold.
    rewrite (next_exhausted it r lower upper w Hit). by repeat split.
  - destruct (randrange_ok lower upper g Hlt) as (v & Hv & _).
    rewrite collect_unfold, (next_value it r lower upper k g v w Hit Hg Hv).
    set (g1 := (rnd_randrange lower upper g).2).
    set (w1 := set_iters (<[it := Suspended r lower upper k]> (iters w))
                 (set_rngs (<[r := g1]> (rngs w)) w)).
    destruct (IH w1 g1) as (vs & w' & Hcol & Hlen & Hr & Hother & Hls).
    { simpl. apply list_lookup_insert_eq. by apply lookup_lt_Some in Hit. }
    { simpl. apply list_lookup_insert_eq. by apply lookup_lt_Some in Hg. }
    exists (v :: vs), w'. rewrite Hcol. split; [done|].
    split; [simpl; lia|]. split; [|split; [|done]].
    + rewrite Hr. f_equal. unfold after_randranges.
      by rewrite Nat.iter_succ_r.
    + intros r' Hne. rewrite (Hother r' Hne). simpl.
      by apply list_lookup_insert_ne.
Qed.

(** Building the iterator on a generator passed in draws nothing from it;
    consuming all [size] values leaves that generator exactly [size] calls
    of [randrange] ahead, and every other generator and every list as they
    were. *)
Theorem integers_advances_generator size lower upper r g w :
  lower < upper -> 0 <= size -> rngs w !! r = Some g ->
  exists it w1 vs w2,
    integers size lower upper (PyRandom r) w = (Return it, w1) /\
    rngs w1 = rngs w /\
    tuple it w1 = (Return vs, w2) /\
    rngs w2 !! r = Some (after_randranges lower upper (Z.to_nat size) g) /\
    (forall r', r' <> r -> rngs w2 !! r' = rngs w !! r') /\
    lists w2 = lists w.
Proof.
  intros Hlt Hsize Hg.
  set (w1 := set_iters (iters w ++ [Suspended r lower upper (Z.to_nat size)]) w).
  assert (Hit : iters w1 !! length (iters w) =
                Some (Suspended r lower upper (Z.to_nat size))).
  { simpl. by apply list_lookup_middle. }
  destruct (collect_advances _ r lower upper Hlt _ w1 g Hit Hg)
    as (vs & w2 & Hcol & _ & Hr & Hother & Hls).
  exists (length (iters w)), w1, vs, w2.
  split; [done|]. split; [done|]. split; [|done].
  unfold tuple, remaining_items. by rewrite Hit.
Qed.

(** The iterator holds the generator, not values: a draw made on the
    generator after the iterator was built and before it is advanced
    changes what the iterator yields.  Here a [coinflip] on the same
    generator comes in between, and the first value is the one
    [randrange] gives after that flip's draw. *)
Theorem integers_draws_when_consumed size lower upper q r g w :
  lower < upper -> 0 < size -> in_unit_interval (Finite q) ->
  rngs w !! r = Some g ->
  exists it w1 b w2 v w3,
    integers size lower upper (PyRandom r) w = (Return it, w1) /\
    coinflip (Finite q) (PyRandom r) w1 = (Return b, w2) /\
    next it w2 = (Return v, w3) /\
    (rnd_randrange lower upper (rnd_random g).2).1 = Some v /\
    lower <= v < upper /\
    rngs w3 !! r = Some (rnd_randrange lower upper (rnd_random g).2).2.
Proof.
  intros Hlt Hsize Hq Hg.
  destruct (Z.to_nat size) as [|n] eqn:Hn; [lia|].
  set (w1 := set_iters (iters w ++ [Suspended r lower upper (S n)]) w).
  set (g1 := (rnd_random g).2).
  set (w2 := set_rngs (<[r := g1]> (rngs w1)) w1).
  assert (Hlen : (r < length (rngs w))%nat) by (by apply lookup_lt_Some in Hg).
  assert (Hit : iters w2 !! length (iters w) = Some (Suspended r lower upper (S n))).
  { simpl. by apply list_lookup_middle. }
  assert (Hg1 : rngs w2 !! r = Some g1).
  { simpl. by apply list_lookup_insert_eq. }
  destruct (randrange_ok lower upper g1 Hlt) as (v & Hv & Hrange).
  exists (length (iters w)), w1, (float_lt (Finite (rnd_random g).1) (Finite q)),
         w2, v.
  eexists. split; [|split; [|split; [|split; [done|split; [done|]]]]].
  - unfold integers, bind. cbn [get_rng ret]. unfold new_genexpr.
    by rewrite Hn.
  - apply unit_interval_check in Hq. unfold coinflip. rewrite Hq.
    cbn [negb]. unfold bind, call_random. cbn [get_rng ret].
    by rewrite (on_rng_Some rnd_random r g w1 Hg).
  - exact (next_value _ r lower upper n g1 v w2 Hit Hg1 Hv).
  - simpl. apply list_lookup_insert_eq. by rewrite length_insert.
Qed.

(** A list of at most one element comes back from [shuffle] with the same
    contents, whatever the generator does. *)
Theorem shuffle_short items (xs : list T) seed w :
  lists w !! items = Some xs -> (length xs <= 1)%nat -> valid_seed w seed ->
  returned_list (shuffle items seed w) = Return xs.
Proof.
  intros Hl Hlen Hseed. unfold shuffle, bind. rewrite (len_Some items xs w Hl).
  destruct xs as [|x [|x' xs']]; [| |simpl in Hlen; lia].
  - destruct (get_rng_valid seed w Hseed) as (r & w1 & Hget & _ & Hls & _).
    rewrite (draw_resolved _ _ _ _ _ _ _ Hget).
    change (Z.of_nat (length [])) with 0. change (0 <? 0) with false.
    unfold bind. rewrite (len_Some items [] w1) by (by rewrite Hls).
    cbn. by rewrite list_lookup_middle.
  - destruct (draw_positions items [x] 1 seed w Hl)
      as (res & w' & ys & js & Hdraw & Hres & Hjs & _ & Hd);
      [done | simpl; lia | done |].
    change (Z.of_nat (length [x])) with 1. rewrite Hdraw. cbn. rewrite Hres.
    f_equal.
    destruct Hd as [|j y js ys Hj Hrest]; [discriminate|].
    destruct Hrest; [|discriminate].
    apply list_lookup_singleton_Some in Hj as [_ ->]. done.
Qed.

Lemma omap_submseteq {A B} (f : A -> option B) (l1 l2 : list A) :
  l1 ⊆+ l2 -> omap f l1 ⊆+ omap f l2.
Proof.
  induction 1 as [|x l1 l2 _ IH|x y l|x l1 l2 _ IH|l1 l2 l3 _ IH1 _ IH2].
  - done.
  - cbn. destruct (f x); [by apply submseteq_skip|done].
  - cbn. destruct (f x), (f y); try done. apply submseteq_swap.
  - cbn. destruct (f x); [by apply submseteq_cons|done].
  - by etrans.
Qed.

(** Without replacement no element is drawn more often than it occurs:
    the list returned is, up to order, a sub-multiset of [items]. *)
Theorem draw_without_replacement_submultiset items (xs : list T) size seed w :
  lists w !! items = Some xs -> xs <> [] ->
  0 <= size <= Z.of_nat (length xs) -> valid_seed w seed ->
  exists res w' ys,
    draw items false size seed w = (Return res, w') /\
    lists w' !! res = Some ys /\
    ys ⊆+ xs.
Proof.
  intros Hl Hne Hsize Hseed.
  destruct (draw_positions items xs size seed w Hl Hne Hsize Hseed)
    as (res & w' & ys & js & Hdraw & Hres & _ & Hnd & Hd).
  exists res, w', ys. split; [done|]. split; [done|].
  assert (Hsub : js ⊆+ seq 0 (length xs)).
  { apply NoDup_submseteq; [done|]. intros j Hj.
    apply list_elem_of_lookup in Hj as [i Hi].
    destruct (Forall2_lookup_l _ _ _ _ _ Hd Hi) as (y & _ & Hy).
    apply elem_of_seq. apply lookup_lt_Some in Hy. lia. }
  apply (omap_submseteq (fun j => xs !! j)) in Hsub.
  rewrite (drawn_at_omap xs js ys Hd) in Hsub.
  pose proof (omap_lookup_seq [] xs) as Hall. simpl in Hall.
  by rewrite Hall in Hsub.
Qed.

End Coverage.

(** * The further properties at concrete inputs *)

(** [draw(["a", "b", "c"], False, 2, seed=101)] in two different stores. *)
Lemma draw_seeded_reproducible_witness :
  returned_list
    (draw 0%nat false 2 (PyInt 101) (RefGen.store string ["a"; "b"; "c"])) =
  returned_list
    (draw 1%nat false 2 (PyInt 101)
       (World [RefGen.State 5] [["z"]; ["a"; "b"; "c"]] [] (fun _ => 7) 3)).
Proof.
  apply (draw_seeded_reproducible 0%nat 1%nat ["a"; "b"; "c"] false 2 101).
  - reflexivity.
  - reflexivity.
Defined.

(** [shuffle([10, 20, 30], seed=101)] in two different stores. *)
Lemma shuffle_seeded_reproducible_witness :
  returned_list (shuffle 0%nat (PyInt 101) (RefGen.store Z [10; 20; 30])) =
  returned_list
    (shuffle 1%nat (PyInt 101)
       (World [RefGen.State 5] [[1]; [10; 20; 30]] [] (fun _ => 7) 3)).
Proof.
  apply (shuffle_seeded_reproducible 0%nat 1%nat [10; 20; 30] 101).
  - reflexivity.
  - reflexivity.
Defined.

(** [coinflip(0.5, seed="invalid seed")]. *)
Lemma coinflip_foreign_seed_witness :
  coinflip (Finite (1 # 2)) (PyStr "invalid seed") (RefGen.store Z []) =
    (Raise (ValueError BadSeed), RefGen.store Z []).
Proof.
  apply (coinflip_foreign_seed (Finite (1 # 2)) (PyStr "invalid seed")).
  - split; discriminate.
  - exact I.
Defined.

(** [rng = get_rng(101); coinflip(0.5, rng); coinflip(0.25, rng)]. *)
Lemma coinflip_shared_generator_witness :
  exists w1 w2,
    coinflip (Finite (1 # 2)) (PyRandom 0) (RefGen.store_rng Z 101 []) =
      (Return (float_lt (Finite (rnd_random (rnd_init 101)).1) (Finite (1 # 2))),
       w1) /\
    coinflip (Finite (1 # 4)) (PyRandom 0) w1 =
      (Return
         (float_lt (Finite (rnd_random (rnd_random (rnd_init 101)).2).1)
            (Finite (1 # 4))), w2) /\
    rngs w2 !! 0%nat = Some (rnd_random (rnd_random (rnd_init 101)).2).2 /\
    touches_only 0 (RefGen.store_rng Z 101 []) w2.
Proof.
  apply (coinflip_shared_generator (1 # 2) (1 # 4) 0%nat (rnd_init 101)
           (RefGen.store_rng Z 101 [])).
  - split; discriminate.
  - split; discriminate.
  - reflexivity.
Defined.

(** [coinflip(0.95, seed=101)] is true on the reference generator, so
    [coinflip(1.0, seed=101)] is. *)
Lemma coinflip_monotone_witness :
  (coinflip (Finite (19 # 20)) (PyInt 101) (RefGen.store Z [])).1 = Return true /\
  (coinflip (Finite 1) (PyInt 101) (RefGen.store Z [])).1 = Return true.
Proof.
  assert (H : (coinflip (Finite (19 # 20)) (PyInt 101) (RefGen.store Z [])).1
              = Return true) by (vm_compute; reflexivity).
  split; [exact H|].
  apply (coinflip_monotone (19 # 20) 1 (PyInt 101) (RefGen.store Z []));
    [discriminate | discriminate | discriminate | exact H].
Defined.

(** [tuple(integers(-3, 0, 10))]. *)
Lemma integers_nonpositive_size_witness :
  exists it w1 w2,
    integers (-3) 0 10 PyNone (RefGen.store Z []) = (Return it, w1) /\
    tuple it w1 = (Return [], w2) /\
    rngs w2 = rngs w1 /\ lists w2 = lists w1.
Proof.
  apply (integers_nonpositive_size (-3) 0 10 PyNone (RefGen.store Z [])).
  - lia.
  - exact I.
Defined.

(** [get_rng(7)] in a store that already holds a generator. *)
Lemma get_rng_fresh_witness :
  exists r w1,
    get_rng (PyInt 7) (RefGen.store_rng Z 101 []) = (Return r, w1) /\
    rngs (RefGen.store_rng Z 101 []) !! r = None /\
    is_Some (rngs w1 !! r) /\
    rngs_untouched (RefGen.store_rng Z 101 []) w1 /\
    lists w1 = lists (RefGen.store_rng Z 101 []) /\
    iters w1 = iters (RefGen.store_rng Z 101 []).
Proof.
  apply (get_rng_fresh (PyInt 7) (RefGen.store_rng Z 101 [])).
  - exact I.
  - discriminate.
Defined.

(** [rng = get_rng(101); tuple(integers(3, -2, 2, rng))]. *)
Lemma integers_advances_generator_witness :
  exists it w1 vs w2,
    integers 3 (-2) 2 (PyRandom 0) (RefGen.store_rng Z 101 []) = (Return it, w1) /\
    rngs w1 = rngs (RefGen.store_rng Z 101 []) /\
    tuple it w1 = (Return vs, w2) /\
    rngs w2 !! 0%nat = Some (after_randranges (-2) 2 (Z.to_nat 3) (rnd_init 101)) /\
    (forall r', r' <> 0%nat ->
       rngs w2 !! r' = rngs (RefGen.store_rng Z 101 []) !! r') /\
    lists w2 = lists (RefGen.store_rng Z 101 []).
Proof.
  apply (integers_advances_generator (laws := refgen_laws)
           3 (-2) 2 0%nat (rnd_init 101) (RefGen.store_rng Z 101 [])).
  - lia.
  - lia.
  - reflexivity.
Defined.

(** [rng = get_rng(101); it = integers(2, 0, 10, rng); coinflip(0.5, rng);
    next(it)]. *)
Lemma integers_draws_when_consumed_witness :
  exists it w1 b w2 v w3,
    integers 2 0 10 (PyRandom 0) (RefGen.store_rng Z 101 []) = (Return it, w1) /\
    coinflip (Finite (1 # 2)) (PyRandom 0) w1 = (Return b, w2) /\
    next it w2 = (Return v, w3) /\
    (rnd_randrange 0 10 (rnd_random (rnd_init 101)).2).1 = Some v /\
    0 <= v < 10 /\
    rngs w3 !! 0%nat = Some (rnd_randrange 0 10 (rnd_random (rnd_init 101)).2).2.
Proof.
  apply (integers_draws_when_consumed (laws := refgen_laws)
           2 0 10 (1 # 2) 0%nat (rnd_init 101) (RefGen.store_rng Z 101 [])).
  - lia.
  - lia.
  - split; discriminate.
  - reflexivity.
Defined.

(** [shuffle([42], seed=101)]. *)
Lemma shuffle_short_witness :
  returned_list (shuffle 0%nat (PyInt 101) (RefGen.store Z [42])) = Return [42].
Proof.
  apply (shuffle_short (laws := refgen_laws) 0%nat [42] (PyInt 101)
           (RefGen.store Z [42])).
  - reflexivity.
  - simpl. lia.
  - exact I.
Defined.

(** [draw(["a", "a", "b"], False, 2, seed=101)]. *)
Lemma draw_without_replacement_submultiset_witness :
  exists res w' ys,
    draw 0%nat false 2 (PyInt 101) (RefGen.store string ["a"; "a"; "b"])
      = (Return res, w') /\
    lists w' !! res = Some ys /\
    ys ⊆+ ["a"; "a"; "b"].
Proof.
  apply (draw_without_replacement_submultiset (laws := refgen_laws)
           0%nat ["a"; "a"; "b"] 2 (PyInt 101)
           (RefGen.store string ["a"; "a"; "b"])).
  - reflexivity.
  - discriminate.
  - simpl. lia.
  - exact I.
Defined.
